(** * gpx-visual: the elevation pipeline of [processGPX]

    A shallow embedding of [processGPX] (utils.js) and of its
    pipeline stages, with the properties of the resampler, the smoother,
    the gain/loss accumulator, the slope annotator and the stats formatter;
    of [calcGain], the parameter sweep's copy of the gain computation; and
    of the name that [handleExport] gives the exported image.

    Numbers.  A JavaScript number is modelled as an exact rational [Q]: the
    arithmetic of the pipeline is [+ - * /], comparisons, [Math.floor],
    [Math.round], [Math.abs], [Math.max], [Math.min] and [toFixed], all of
    which are rational.  Binary64 rounding is not modelled.  A division whose
    divisor is zero leaves the finite numbers ([Infinity] or [NaN] in
    JavaScript); the model reports it as the outcome [NotFinite].
    [Math.atan] is implementation-approximated in ECMAScript; it is a
    parameter of the development.

    Arrays.  An array is a [list]; [a[i]] is stdpp's [a !! i], where [None]
    stands for [undefined].  Reading a property of [undefined] throws a
    [TypeError].

    Input.  [gpxParser] is a library; the model of [processGPX] starts from
    the parsed object, of which it reads [tracks], and of the first track
    [points], [distance.cumul] and [distance.total].

    Loops.  The resampling loop runs while [d <= totalDist] and is bounded
    by [fuel] in the model; the theorems give the fuel that is enough.

    Names.  Where two objects of the source have a property of the same
    name, the second record has a prefix: [s_ele] is the [ele] of a sample,
    and [s_distance], [s_elevationGain] and [s_elevationLoss] are the
    [distance], [elevationGain] and [elevationLoss] of the stats. *)

From Stdlib Require Import QArith Qround Qabs Qminmax ZArith List String Ascii Lia Lqa.
From Stdlib Require Import DecimalString DecimalPos DecimalN.
From stdpp Require Import base option list.

Close Scope Q_scope.
Local Open Scope nat_scope.

(** ** Outcomes of a call *)

Inductive error : Type :=
| NoTracksFound   (* throw new Error("No tracks found in GPX file") *)
| TypeError       (* a property of [undefined] was read *)
| NotFinite       (* a division by zero *)
| OutOfFuel.      (* the loop bound of the model was reached *)

Inductive res (A : Type) : Type :=
| Ok (a : A)
| Err (e : error).
Arguments Ok {A} a.
Arguments Err {A} e.

Definition bind {A B : Type} (m : res A) (k : A -> res B) : res B :=
  match m with
  | Ok a => k a
  | Err e => Err e
  end.

Notation "'do' x <- m ; k" := (bind m (fun x => k))
  (at level 10, x name, m at level 100, k at level 200).

(** [o.prop] where [o] may be [undefined]. *)
Definition prop_of {A : Type} (o : option A) : res A :=
  match o with
  | Some a => Ok a
  | None => Err TypeError
  end.

(** ** Numbers *)

Definition Qltb (x y : Q) : bool := negb (Qle_bool y x).

(** [Math.abs] *)
Definition Math_abs (x : Q) : Q := Qabs x.

(** [a / b]; a zero divisor leaves the finite numbers. *)
Definition div (a b : Q) : res Q :=
  if Qeq_bool b 0 then Err NotFinite else Ok (a / b)%Q.

(** [x < y] where [x] may be [undefined]: [undefined] converts to [NaN],
    and every comparison with [NaN] is false. *)
Definition undef_lt (x : option Q) (y : Q) : bool :=
  match x with
  | Some x => Qltb x y
  | None => false
  end.

(** ** The parsed track (the [gpxParser] object read by [processGPX]) *)

(** A track point; of its fields only [ele] is read.  The parser stores
    [null] for an elevation that does not parse, which every arithmetic
    use below converts to 0, so [ele] is a number. *)
Record point : Type := { ele : Q }.

Record distance_t : Type := { cumul : list Q; total : Q }.

Record track : Type := { points : list point; distance : distance_t }.

(** [tracks = None] is a missing [gpx.tracks]. *)
Record gpx_t : Type := { tracks : option (list track) }.

(** An element of [samples] and of [smoothed]. *)
Record sample : Type := { dist : Q; s_ele : Q }.

(** ** Step 1: resampling *)

Section Resample.
Variable SAMPLE_DISTANCE : Q.
Variable pts : list point.
Variable cumDist : list Q.
Variable totalDist : Q.

(** [while (idx < points.length - 1 && cumDist[idx + 1] < d) idx++].
    [idx] is a natural number, so [idx < points.length - 1] has the same
    truth value with the truncated subtraction of [nat] as in JavaScript,
    where [points.length - 1] is [-1] for an empty array. *)
Fixpoint advance (fuel : nat) (idx : nat) (d : Q) : res nat :=
  match fuel with
  | O => Err OutOfFuel
  | S fuel' =>
      if (idx <? length pts - 1) && undef_lt (cumDist !! (idx + 1)) d
      then advance fuel' (idx + 1) d
      else Ok idx
  end.

(** [t = d2 > d1 ? (d - d1) / (d2 - d1) : 0], with [d1 = cumDist[idx]]
    and [d2 = cumDist[idx + 1]]; the comparison is false when either is
    [undefined]. *)
Definition fraction (idx : nat) (d : Q) : res Q :=
  match cumDist !! idx, cumDist !! (idx + 1) with
  | Some d1, Some d2 =>
      if Qltb d1 d2 then div (d - d1) (d2 - d1) else Ok 0%Q
  | _, _ => Ok 0%Q
  end.

(** The body of the [for] loop after the [while]: the pushed sample. *)
Definition sample_at (idx : nat) (d : Q) : res sample :=
  if length pts - 1 <=? idx then
    do p <- prop_of (pts !! (length pts - 1)) ;
    Ok {| dist := d; s_ele := ele p |}
  else
    do p1 <- prop_of (pts !! idx) ;
    do p2 <- prop_of (pts !! (idx + 1)) ;
    do t <- fraction idx d ;
    Ok {| dist := d; s_ele := (ele p1 + t * (ele p2 - ele p1))%Q |}.

(** [for (let d = 0; d <= totalDist; d += SAMPLE_DISTANCE) { ... }],
    threading [idx] and the array [samples]. *)
Fixpoint resample_loop (fuel : nat) (d : Q) (idx : nat) (samples : list sample)
  : res (list sample) :=
  match fuel with
  | O => Err OutOfFuel
  | S fuel' =>
      if Qle_bool d totalDist then
        do idx' <- advance fuel idx d ;
        do s <- sample_at idx' d ;
        resample_loop fuel' (d + SAMPLE_DISTANCE)%Q idx' (samples ++ [s])
      else Ok samples
  end.

Definition resample (fuel : nat) : res (list sample) :=
  resample_loop fuel 0%Q 0 [].
End Resample.

(** ** Step 2: moving average *)

(** [array.map((v, i) => f(v, i))] for a callback that may throw. *)
Fixpoint map_index {A B : Type} (f : A -> nat -> res B) (i : nat) (l : list A)
  : res (list B) :=
  match l with
  | [] => Ok []
  | a :: l' =>
      do b <- f a i ;
      do bs <- map_index f (S i) l' ;
      Ok (b :: bs)
  end.

Section Smooth.
Variable half : Z.
Variable samples : list sample.

(** The values of [j] in
    [for (j = Math.max(0, i - half); j <= Math.min(samples.length - 1, i + half); j++)]. *)
Definition window (i : nat) : list Z :=
  let lo := Z.max 0 (Z.of_nat i - half) in
  let hi := Z.min (Z.of_nat (length samples) - 1) (Z.of_nat i + half) in
  seqZ lo (hi - lo + 1).

(** [sum += samples[j].ele; count++] *)
Definition window_step (acc : res (Q * nat)) (j : Z) : res (Q * nat) :=
  do sc <- acc ;
  do s <- prop_of (samples !! Z.to_nat j) ;
  Ok ((fst sc + s_ele s)%Q, snd sc + 1).

Definition window_sum (i : nat) : res (Q * nat) :=
  fold_left window_step (window i) (Ok (0%Q, 0)).

(** The callback of [samples.map]. *)
Definition smooth_at (s : sample) (i : nat) : res sample :=
  do sc <- window_sum i ;
  do m <- div (fst sc) (inject_Z (Z.of_nat (snd sc))) ;
  Ok {| dist := dist s; s_ele := m |}.

Definition smooth : res (list sample) := map_index smooth_at 0 samples.
End Smooth.

(** [half = Math.floor(Math.floor(SMOOTH / SAMPLE) / 2)] *)
Definition half_window (SMOOTH SAMPLE : Q) : res Z :=
  do w <- div SMOOTH SAMPLE ;
  let windowSize := Qfloor w in
  Ok (Qfloor (inject_Z windowSize / 2)).

(** ** Step 3: gain and loss with a threshold *)

Record acc_state : Type := { anchor : Q; elevationGain : Q; elevationLoss : Q }.

(** The body of the loop, for [smoothed[i].ele = e]. *)
Definition acc_step (THRESHOLD : Q) (st : acc_state) (e : Q) : acc_state :=
  let diff := (e - anchor st)%Q in
  if Qle_bool THRESHOLD diff then
    {| anchor := e;
       elevationGain := (elevationGain st + diff)%Q;
       elevationLoss := elevationLoss st |}
  else if Qle_bool diff (- THRESHOLD) then
    {| anchor := e;
       elevationGain := elevationGain st;
       elevationLoss := (elevationLoss st + Math_abs diff)%Q |}
  else st.

Definition acc_init (e0 : Q) : acc_state :=
  {| anchor := e0; elevationGain := 0; elevationLoss := 0 |}.

(** [anchor = smoothed[0].ele], then the loop over [i = 1 .. length - 1]. *)
Definition accumulate (THRESHOLD : Q) (smoothed : list sample) : res acc_state :=
  do s0 <- prop_of (smoothed !! 0) ;
  Ok (fold_left (acc_step THRESHOLD) (map s_ele (drop 1 smoothed)) (acc_init (s_ele s0))).

(** ** Text renderings of numbers *)

Local Open Scope string_scope.

Fixpoint zeros (n : nat) : string :=
  match n with
  | O => ""
  | S n' => String "0" (zeros n')
  end.

(** The decimal digits of a non-negative integer. *)
Definition digits (n : Z) : string := NilZero.string_of_uint (N.to_uint (Z.to_N n)).

(** [x.toFixed(f)], for [|x| < 10^21]: the sign is split off, [n] is the
    integer for which [n / 10^f - x] is closest to zero (the larger one on
    a tie), and its digits are padded to [f + 1] and split at the point. *)
Definition toFixed (f : nat) (x : Q) : string :=
  let neg := Qltb x 0 in
  let ax := if neg then (- x)%Q else x in
  let n := Qfloor (ax * inject_Z (10 ^ Z.of_nat f) + (1 # 2)) in
  let m := digits n in
  let m :=
    if (f =? 0)%nat then m
    else
      let m := if (String.length m <=? f)%nat
               then zeros (f + 1 - String.length m) ++ m else m in
      let k := String.length m in
      substring 0 (k - f) m ++ "." ++ substring (k - f) f m in
  (if neg then "-" else "") ++ m.

(** [Math.round(x)]: the nearest integer, the larger one on a tie. *)
Definition Math_round (x : Q) : Z := Qfloor (x + (1 # 2)).

(** [n.toString()] for an integer [n]. *)
Definition toString (n : Z) : string := NilZero.string_of_int (Z.to_int n).

(** [Math.max(...values)] and [Math.min(...values)]: the running extremum,
    replaced by a value that is strictly beyond it.  [None] is the value
    for no argument at all, [-Infinity] and [Infinity]. *)
Definition Math_max (values : list Q) : option Q :=
  fold_left (fun highest v =>
               match highest with
               | None => Some v
               | Some h => if Qltb h v then Some v else Some h
               end) values None.

Definition Math_min (values : list Q) : option Q :=
  fold_left (fun lowest v =>
               match lowest with
               | None => Some v
               | Some l => if Qltb v l then Some v else Some l
               end) values None.

(** [toFixed] on the result of [Math.max] or [Math.min]; [inf] is the text
    of the infinite value. *)
Definition toFixed_ext (inf : string) (f : nat) (v : option Q) : string :=
  match v with
  | Some q => toFixed f q
  | None => inf
  end.

Local Close Scope string_scope.

(** [Math.PI], the binary64 number 3.141592653589793. *)
Definition Math_PI : Q := 884279719003555 # 281474976710656.

(** ** Chart data and stats *)

(** A property that holds a number at one time and a string at another. *)
Inductive jsval : Type :=
| JNum (q : Q)
| JStr (s : string).

(** A point [{x, y}] as the simplifier takes and returns it. *)
Record xy : Type := { px : Q; py : Q }.

Record chart_point : Type := { x : Q; y : Q; slope : jsval }.

Record stats_t : Type := {
  s_distance : string;
  totalDistance : Q;
  s_elevationGain : string;
  s_elevationLoss : string;
  maxElevation : string;
  minElevation : string
}.

Record output : Type := { stats : stats_t; chartData : list chart_point }.

(** The [stats] object literal. *)
Definition make_stats (totalDist : Q) (st : acc_state) (smoothed : list sample) : stats_t :=
  {| s_distance := toFixed 2 (totalDist / 1000);
     totalDistance := totalDist;
     s_elevationGain := toString (Math_round (elevationGain st));
     s_elevationLoss := toString (Math_round (elevationLoss st));
     maxElevation := toFixed_ext "-Infinity"%string 0 (Math_max (map s_ele smoothed));
     minElevation := toFixed_ext "Infinity"%string 0 (Math_min (map s_ele smoothed)) |}.

Definition SAMPLE_DISTANCE : Q := 25.
Definition SMOOTH_DISTANCE : Q := 100.
Definition THRESHOLD : Q := 4.
Definition simplifyTolerance : Q := 3.

Section Pipeline.
(** [Math.atan]: some function from numbers to numbers. *)
Variable Math_atan : Q -> Q.
(** The imported [simplify(points, tolerance, highestQuality)]. *)
Variable simplify : list xy -> Q -> bool -> list xy.

(** The body of the slope loop, on the array [chartData]. *)
Definition slope_step (cd : res (list chart_point)) (i : nat) : res (list chart_point) :=
  do chartData <- cd ;
  do p <- prop_of (chartData !! i) ;
  do q <- prop_of (chartData !! (i + 1)) ;
  let dx := (x q - x p)%Q in
  let dy := (y q - y p)%Q in
  if Qltb 0 dx then
    do r <- div dy dx ;
    let grade := (r * 100)%Q in
    let slopeDeg := toFixed 1 (Math_atan (grade / 100) * 180 / Math_PI) in
    Ok (<[ i := {| x := x p; y := y p; slope := JStr slopeDeg |} ]> chartData)
  else Ok chartData.

(** [for (let i = 0; i < chartData.length - 1; i++) { ... }] *)
Definition annotate (chartData : list chart_point) : res (list chart_point) :=
  fold_left slope_step (seq 0 (length chartData - 1)) (Ok chartData).

(** [simplifiedPoints.map(p => ({ x: p.x, y: p.y, slope: 0 }))] *)
Definition to_chart (p : xy) : chart_point :=
  {| x := px p; y := py p; slope := JNum 0 |}.

(** [smoothed.map(s => ({ x: s.dist, y: s.ele }))] *)
Definition to_xy (s : sample) : xy := {| px := dist s; py := s_ele s |}.

(** The samples after steps 1 and 2. *)
Definition smoothed_of (fuel : nat) (t : track) : res (list sample) :=
  do samples <- resample SAMPLE_DISTANCE (points t) (cumul (distance t))
                  (total (distance t)) fuel ;
  do half <- half_window SMOOTH_DISTANCE SAMPLE_DISTANCE ;
  smooth half samples.

(** [processGPX] from the parsed [gpx] on. *)
Definition processGPX (fuel : nat) (gpx : gpx_t) : res output :=
  match tracks gpx with
  | None | Some [] => Err NoTracksFound
  | Some (t :: _) =>
      do smoothed <- smoothed_of fuel t ;
      do st <- accumulate THRESHOLD smoothed ;
      let smoothedPoints := map to_xy smoothed in
      let simplifiedPoints := simplify smoothedPoints simplifyTolerance true in
      do chartData <- annotate (map to_chart simplifiedPoints) ;
      Ok {| stats := make_stats (total (distance t)) st smoothed;
            chartData := chartData |}
  end.
End Pipeline.

(** ** The curve simplifier *)

Module Simplify.
Local Open Scope Q_scope.

(** Modelled from the spec: the Curve Simplifier is the [simplify] that
    [processGPX] imports from the simplify-js package, which is not among
    the sources.  It is modelled as section 4.4 describes it, in the
    highest-quality mode the pipeline asks for: a Douglas-Peucker
    reduction with tolerance [E] that keeps the first and the last point
    and, recursively, the point farthest from the chord while that point
    is farther than the tolerance.  [getSqSegDist] is the squared distance
    from [p] to the segment from [p1] to [p2]. *)
Definition getSqSegDist (p p1 p2 : xy) : Q :=
  let dx := px p2 - px p1 in
  let dy := py p2 - py p1 in
  let foot :=
    if negb (Qeq_bool dx 0) || negb (Qeq_bool dy 0) then
      let t := ((px p - px p1) * dx + (py p - py p1) * dy) / (dx * dx + dy * dy) in
      if Qltb 1 t then (px p2, py p2)
      else if Qltb 0 t then (px p1 + dx * t, py p1 + dy * t)
      else (px p1, py p1)
    else (px p1, py p1) in
  let ex := px p - fst foot in
  let ey := py p - snd foot in
  ex * ex + ey * ey.

(** Modelled from the spec: the scan for the point of [mid] farthest from
    the chord [a b]; [best] holds the largest squared distance so far,
    which starts at the squared tolerance, and the index that reached it. *)
Fixpoint farthest (a b : xy) (mid : list xy) (i : nat) (best : Q * option nat)
  : Q * option nat :=
  match mid with
  | [] => best
  | p :: mid' =>
      let sqDist := getSqSegDist p a b in
      farthest a b mid' (S i)
        (if Qltb (fst best) sqDist then (sqDist, Some i) else best)
  end.

(** Modelled from the spec: one Douglas-Peucker step on the points [mid]
    strictly between [a] and [b]; the result is the points of [mid] that
    are kept, in order.  [fuel] bounds the depth of the recursion. *)
Fixpoint simplifyDPStep (fuel : nat) (a : xy) (mid : list xy) (b : xy) (sqTolerance : Q)
  : list xy :=
  match fuel with
  | O => []
  | S fuel' =>
      match snd (farthest a b mid 0%nat (sqTolerance, None)) with
      | Some index =>
          match mid !! index with
          | Some p =>
              simplifyDPStep fuel' a (take index mid) p sqTolerance
                ++ p :: simplifyDPStep fuel' p (drop (S index) mid) b sqTolerance
          | None => []
          end
      | None => []
      end
  end.

(** Modelled from the spec: the first point, the kept points, the last
    point. *)
Definition simplifyDouglasPeucker (points : list xy) (sqTolerance : Q) : list xy :=
  match points with
  | [] => []
  | a :: rest =>
      match last rest with
      | Some b =>
          let mid := take (length rest - 1) rest in
          a :: simplifyDPStep (length mid) a mid b sqTolerance ++ [b]
      | None => [a; a]
      end
  end.

(** Modelled from the spec: the simplifier in its highest-quality mode;
    two points or fewer are returned as they are. *)
Definition simplify (points : list xy) (tolerance : Q) : list xy :=
  if (length points <=? 2)%nat then points
  else simplifyDouglasPeucker points (tolerance * tolerance).
End Simplify.

(** ** The parameter sweep: [calcGain] *)

(** A number read from an array of numbers: [undefined] in arithmetic is
    [NaN], which is not a finite number. *)
Definition to_number (o : option Q) : res Q :=
  match o with
  | Some q => Ok q
  | None => Err NotFinite
  end.

Section CalcGain.
Variable SAMPLE : Q.
Variable SMOOTH : Q.
Variable THRESH : Q.

(** The number pushed to [samples] after the [while]. *)
Definition value_at (pts : list point) (cumDist : list Q) (idx : nat) (d : Q) : res Q :=
  if length pts - 1 <=? idx then
    do p <- prop_of (pts !! (length pts - 1)) ;
    Ok (ele p)
  else
    do p1 <- prop_of (pts !! idx) ;
    do p2 <- prop_of (pts !! (idx + 1)) ;
    do t <- fraction cumDist idx d ;
    Ok (ele p1 + t * (ele p2 - ele p1))%Q.

(** [for (let d = 0; d <= totalDist; d += SAMPLE) { ... }] *)
Fixpoint calc_resample_loop (pts : list point) (cumDist : list Q) (totalDist : Q)
         (fuel : nat) (d : Q) (idx : nat) (samples : list Q) : res (list Q) :=
  match fuel with
  | O => Err OutOfFuel
  | S fuel' =>
      if Qle_bool d totalDist then
        do idx' <- advance pts cumDist fuel idx d ;
        do v <- value_at pts cumDist idx' d ;
        calc_resample_loop pts cumDist totalDist fuel' (d + SAMPLE)%Q idx' (samples ++ [v])
      else Ok samples
  end.

(** The values of [j] in
    [for (j = Math.max(0, i - half); j <= Math.min(arr.length - 1, i + half); j++)]. *)
Definition calc_window (half : Z) (arr : list Q) (i : nat) : list Z :=
  let lo := Z.max 0 (Z.of_nat i - half) in
  let hi := Z.min (Z.of_nat (length arr) - 1) (Z.of_nat i + half) in
  seqZ lo (hi - lo + 1).

(** [sum += arr[j]; count++] *)
Definition calc_window_step (arr : list Q) (acc : res (Q * nat)) (j : Z) : res (Q * nat) :=
  do sc <- acc ;
  do v <- to_number (arr !! Z.to_nat j) ;
  Ok ((fst sc + v)%Q, snd sc + 1).

(** The callback of [samples.map((_, i, arr) => ...)]. *)
Definition calc_smooth_at (half : Z) (arr : list Q) (_ : Q) (i : nat) : res Q :=
  do sc <- fold_left (calc_window_step arr) (calc_window half arr i) (Ok (0%Q, 0)) ;
  div (fst sc) (inject_Z (Z.of_nat (snd sc))).

Definition calc_smooth (half : Z) (samples : list Q) : res (list Q) :=
  map_index (calc_smooth_at half samples) 0 samples.

(** The body of the gain loop on the pair [(gain, anchor)], for
    [smoothed[i] = e]; a fall of [THRESH] or more moves the anchor and
    counts nothing. *)
Definition calc_step (st : Q * Q) (e : Q) : Q * Q :=
  let diff := (e - snd st)%Q in
  if Qle_bool THRESH diff then ((fst st + diff)%Q, e)
  else if Qle_bool diff (- THRESH) then (fst st, e)
  else st.

(** [gain] after the loop.  For an empty [smoothed] the anchor is
    [undefined] and the loop does not run. *)
Definition calc_gain (smoothed : list Q) : Q :=
  match smoothed with
  | [] => 0%Q
  | a :: rest => fst (fold_left calc_step rest (0%Q, a))
  end.

(** [calcGain] from the parsed [gpx] on. *)
Definition calcGain (fuel : nat) (gpx : gpx_t) : res Z :=
  do ts <- prop_of (tracks gpx) ;
  do t <- prop_of (ts !! 0) ;
  do samples <- calc_resample_loop (points t) (cumul (distance t)) (total (distance t))
                  fuel 0%Q 0 [] ;
  do half <- half_window SMOOTH SAMPLE ;
  do smoothed <- calc_smooth half samples ;
  Ok (Math_round (calc_gain smoothed)).
End CalcGain.

(** ** The name of the exported image ([handleExport]) *)

(** The result of [parseFloat] and of [Math.round] on it. *)
Inductive number : Type :=
| Num (q : Q)
| NaN
| Infinity (negative : bool).

Local Open Scope string_scope.

Definition is_digit (c : ascii) : bool :=
  (48 <=? nat_of_ascii c)%nat && (nat_of_ascii c <=? 57)%nat.

Definition digit_of (c : ascii) : Z := Z.of_nat (nat_of_ascii c) - 48.

(** The white space and line terminators of the ASCII range: TAB, LF, VT,
    FF, CR and the space. *)
Definition is_space (c : ascii) : bool :=
  ((9 <=? nat_of_ascii c)%nat && (nat_of_ascii c <=? 13)%nat)
  || (nat_of_ascii c =? 32)%nat.

Fixpoint trim_start (s : string) : string :=
  match s with
  | String c s' => if is_space c then trim_start s' else s
  | EmptyString => s
  end.

(** An optional sign: whether it is [-], and the rest. *)
Definition split_sign (s : string) : bool * string :=
  match s with
  | String c s' =>
      if Ascii.eqb c "-" then (true, s')
      else if Ascii.eqb c "+" then (false, s')
      else (false, s)
  | EmptyString => (false, s)
  end.

(** The longest prefix of decimal digits, and the rest. *)
Fixpoint take_digits (s : string) : string * string :=
  match s with
  | String c s' =>
      if is_digit c
      then (String c (fst (take_digits s')), snd (take_digits s'))
      else (EmptyString, s)
  | EmptyString => (EmptyString, EmptyString)
  end.

(** The value of a string of decimal digits that follows digits of
    value [acc]. *)
Fixpoint digits_value (s : string) (acc : Z) : Z :=
  match s with
  | String c s' => digits_value s' (10 * acc + digit_of c)
  | EmptyString => acc
  end.

(** The exponent part at the start of [s], 0 when there is none: [e] or
    [E], an optional sign, and at least one digit. *)
Definition exponent_of (s : string) : Z :=
  match s with
  | String c s' =>
      if Ascii.eqb c "e" || Ascii.eqb c "E" then
        let ds := fst (take_digits (snd (split_sign s'))) in
        match ds with
        | EmptyString => 0
        | _ => if fst (split_sign s') then - digits_value ds 0 else digits_value ds 0
        end
      else 0
  | EmptyString => 0
  end%Z.

(** [parseFloat(s)] for a string [s] of ASCII characters: leading white
    space is dropped, and the longest prefix that is a decimal literal
    (sign, [Infinity] or digits with an optional fraction and exponent) is
    the value; [NaN] when there is no such prefix. *)
Definition parseFloat (s : string) : number :=
  let signed := split_sign (trim_start s) in
  let neg := fst signed in
  let body := snd signed in
  if String.prefix "Infinity" body then Infinity neg
  else
    let ip := fst (take_digits body) in
    let s1 := snd (take_digits body) in
    let fraction :=
      match s1 with
      | String c r => if Ascii.eqb c "." then take_digits r else (EmptyString, s1)
      | EmptyString => (EmptyString, s1)
      end in
    let fp := fst fraction in
    let s2 := snd fraction in
    match ip, fp with
    | EmptyString, EmptyString => NaN
    | _, _ =>
        let mantissa :=
          (inject_Z (digits_value ip 0)
           + inject_Z (digits_value fp 0) / inject_Z (10 ^ Z.of_nat (String.length fp)))%Q in
        let v := (mantissa * Qpower 10 (exponent_of s2))%Q in
        Num (if neg then (- v)%Q else v)
    end.

(** [`${Math.round(v)}`] for the number [v]. *)
Definition rounded_text (v : number) : string :=
  match v with
  | Num q => toString (Math_round q)
  | NaN => "NaN"
  | Infinity negative => if negative then "-Infinity" else "Infinity"
  end.

(** [link.download] in [handleExport]:
    [dist = Math.round(parseFloat(fileData.stats.distance))],
    [elev = fileData.stats.elevationGain], and the name is
    [`${dist}km_${elev}m_ride.png`]. *)
Definition download_name (st : stats_t) : string :=
  rounded_text (parseFloat (s_distance st))
  ++ "km_" ++ s_elevationGain st ++ "m_ride.png".

Local Close Scope string_scope.

(** ** Notions used in the statements *)

(** [n] as a number. *)
Definition Qnat (n : nat) : Q := inject_Z (Z.of_nat n).

(** The number of iterations of the resampling loop. *)
Definition iterations (SAMPLE totalDist : Q) : nat :=
  Z.to_nat (Qfloor (totalDist / SAMPLE) + 1).

(** [n] iterations remain from [d] on: [d + n * SAMPLE] is the first value of
    the loop variable beyond [totalDist]. *)
Definition remaining (SAMPLE totalDist d : Q) (n : nat) : Prop :=
  (totalDist < d + Qnat n * SAMPLE)%Q /\
  (n = 0 \/ (d + (Qnat n - 1) * SAMPLE <= totalDist)%Q).

Definition Qsum (l : list Q) : Q := fold_right Qplus 0%Q l.

(** The arithmetic mean. *)
Definition mean (l : list Q) : Q := (Qsum l / Qnat (length l))%Q.

(** The samples in the window of sample [i], clipped at both ends of the
    sequence: those at the indices from [max(0, i - half)], which is
    [i - half] in [nat], to [min(n - 1, i + half)]. *)
Definition clipped_window (half : nat) (samples : list sample) (i : nat) : list sample :=
  let lo := i - half in
  let hi := Nat.min (length samples - 1) (i + half) in
  take (hi - lo + 1) (drop lo samples).

(** The state of the gain/loss loop after the elevations [es], from the
    first elevation [e0]. *)
Definition acc_run (THRESHOLD e0 : Q) (es : list Q) : acc_state :=
  fold_left (acc_step THRESHOLD) es (acc_init e0).

(** [M] is the largest, [m] the smallest element of [l]. *)
Definition is_max (M : Q) (l : list Q) : Prop :=
  M ∈ l /\ forall v, v ∈ l -> (v <= M)%Q.

Definition is_min (m : Q) (l : list Q) : Prop :=
  m ∈ l /\ forall v, v ∈ l -> (m <= v)%Q.

(** The text of the slope of the segment from [p] to [q], as the slope loop
    computes it: the grade in percent, its angle in degrees, one decimal. *)
Definition slope_text (Math_atan : Q -> Q) (p q : chart_point) : string :=
  let dx := (x q - x p)%Q in
  let dy := (y q - y p)%Q in
  let grade := (dy / dx * 100)%Q in
  toFixed 1 (Math_atan (grade / 100)%Q * 180 / Math_PI)%Q.

(** Element [i] of the chart data after the slope loop, for the element [p]
    and its successor, if any, before the loop. *)
Definition annotated (Math_atan : Q -> Q) (p : chart_point) (next : option chart_point)
  : chart_point :=
  match next with
  | Some q =>
      if Qltb 0 (x q - x p)
      then {| x := x p; y := y p; slope := JStr (slope_text Math_atan p q) |}
      else p
  | None => p
  end.

(** A rational approximation of the arctangent near 0, for the examples. *)
Definition atan_series (t : Q) : Q := (t - t * t * t / 3 + t * t * t * t * t / 5)%Q.

(** The simplifier as the examples pass it to the pipeline. *)
Definition simplify_hq (points : list xy) (tolerance : Q) (highestQuality : bool)
  : list xy :=
  Simplify.simplify points tolerance.

(** A parsed file with one track. *)
Definition one_track (eles cumDist : list Q) (totalDist : Q) : gpx_t :=
  {| tracks := Some [ {| points := map Build_point eles;
                         distance := {| cumul := cumDist; total := totalDist |} |} ] |}.





(** The coordinates of a chart point. *)
Definition chart_xy (c : chart_point) : xy := {| px := x c; py := y c |}.

(** The result of a call, with [f] applied to the value it returns. *)
Definition res_map {A B : Type} (f : A -> B) (r : res A) : res B :=
  match r with
  | Ok a => Ok (f a)
  | Err e => Err e
  end.




(** * Properties *)

(** ** Numbers and outcomes *)

Lemma Qltb_lt x y : Qltb x y = true <-> (x < y)%Q.
Proof.
  unfold Qltb. rewrite negb_true_iff.
  split.
  - intros H. apply Qnot_le_lt. intros Hle.
    apply Qle_bool_iff in Hle. congruence.
  - intros H. destruct (Qle_bool y x) eqn:E; [|reflexivity].
    apply Qle_bool_iff in E. lra.
Qed.

Lemma Qltb_ge x y : Qltb x y = false <-> (y <= x)%Q.
Proof.
  unfold Qltb. rewrite negb_false_iff. apply Qle_bool_iff.
Qed.

Lemma bind_Ok {A B : Type} (m : res A) (k : A -> res B) (b : B) :
  bind m k = Ok b -> exists a, m = Ok a /\ k a = Ok b.
Proof. destruct m as [a|e]; simpl; [eauto | discriminate]. Qed.

Lemma div_Ok (a b : Q) : ~ (b == 0)%Q -> div a b = Ok (a / b)%Q.
Proof.
  intros Hb. unfold div.
  destruct (Qeq_bool b 0) eqn:E; [|reflexivity].
  apply Qeq_bool_iff in E. contradiction.
Qed.

Lemma div_Ok_inv (a b q : Q) : div a b = Ok q -> ~ (b == 0)%Q /\ q = (a / b)%Q.
Proof.
  unfold div. destruct (Qeq_bool b 0) eqn:E; [discriminate|].
  intros [= <-]. split; [|reflexivity].
  intros Hb. apply Qeq_bool_iff in Hb. congruence.
Qed.

(** ** The resampler *)

Lemma Qnat_S n : (Qnat (S n) == Qnat n + 1)%Q.
Proof.
  unfold Qnat. rewrite Nat2Z.inj_succ, <- Z.add_1_r, inject_Z_plus. reflexivity.
Qed.

Lemma Qnat_nonneg n : (0 <= Qnat n)%Q.
Proof.
  unfold Qnat. change 0%Q with (inject_Z 0). rewrite <- Zle_Qle. lia.
Qed.

Section ResampleFacts.
Variable SAMPLE : Q.
Variable pts : list point.
Variable cumDist : list Q.
Variable totalDist : Q.

Lemma advance_Ok fuel idx d :
  length pts - 1 - idx < fuel ->
  exists idx', advance pts cumDist fuel idx d = Ok idx' /\ idx <= idx'.
Proof.
  revert idx. induction fuel as [|fuel IH]; intros idx Hf; [lia|].
  simpl.
  destruct ((idx <? length pts - 1) && undef_lt (cumDist !! (idx + 1)) d) eqn:E.
  - apply andb_true_iff in E as [E _]. apply Nat.ltb_lt in E.
    destruct (IH (idx + 1)) as (idx' & -> & Hle); [lia|].
    exists idx'. split; [reflexivity | lia].
  - exists idx. split; [reflexivity | lia].
Qed.

Lemma fraction_Ok idx d : exists t, fraction cumDist idx d = Ok t.
Proof.
  unfold fraction.
  destruct (cumDist !! idx) as [d1|]; [|eauto].
  destruct (cumDist !! (idx + 1)) as [d2|]; [|eauto].
  destruct (Qltb d1 d2) eqn:E; [|eauto].
  apply Qltb_lt in E.
  rewrite div_Ok by lra. eauto.
Qed.

Lemma fraction_coincident idx d d1 d2 :
  cumDist !! idx = Some d1 -> cumDist !! (idx + 1) = Some d2 ->
  (d2 <= d1)%Q -> fraction cumDist idx d = Ok 0%Q.
Proof.
  intros H1 H2 Hle. unfold fraction. rewrite H1, H2.
  apply Qltb_ge in Hle. rewrite Hle. reflexivity.
Qed.

Lemma sample_at_last idx d :
  length pts - 1 <= idx ->
  sample_at pts cumDist idx d =
    do p <- prop_of (last pts) ; Ok {| dist := d; s_ele := ele p |}.
Proof.
  intros H. unfold sample_at.
  apply Nat.leb_le in H. rewrite H.
  rewrite last_lookup. f_equal. f_equal. f_equal. lia.
Qed.

Lemma sample_at_Ok idx d :
  pts <> [] -> exists s, sample_at pts cumDist idx d = Ok s /\ dist s = d.
Proof.
  intros Hne. unfold sample_at.
  assert (Hlen : 0 < length pts) by (destruct pts; [congruence | simpl; lia]).
  destruct (length pts - 1 <=? idx) eqn:E.
  - destruct (lookup_lt_is_Some_2 pts (length pts - 1)) as [p Hp]; [lia|].
    rewrite Hp. simpl. eauto.
  - apply Nat.leb_gt in E.
    destruct (lookup_lt_is_Some_2 pts idx) as [p1 Hp1]; [lia|].
    destruct (lookup_lt_is_Some_2 pts (idx + 1)) as [p2 Hp2]; [lia|].
    rewrite Hp1, Hp2. simpl.
    destruct (fraction_Ok idx d) as [t ->]. simpl. eauto.
Qed.

Lemma resample_loop_spec n :
  (0 < SAMPLE)%Q -> pts <> [] ->
  forall fuel d idx acc,
    remaining SAMPLE totalDist d n -> n + length pts <= fuel ->
    exists out,
      resample_loop SAMPLE pts cumDist totalDist fuel d idx acc = Ok (acc ++ out) /\
      length out = n /\
      forall k s, out !! k = Some s -> (dist s == d + Qnat k * SAMPLE)%Q.
Proof.
  intros HS Hne.
  assert (Hlen : 0 < length pts) by (destruct pts; [congruence | simpl; lia]).
  induction n as [|n IH]; intros fuel d idx acc [Hgt Hle] Hfuel.
  - destruct fuel as [|fuel]; [lia|]. simpl.
    change (Qnat 0) with 0%Q in Hgt.
    destruct (Qle_bool d totalDist) eqn:E.
    + apply Qle_bool_iff in E. lra.
    + exists []. rewrite app_nil_r.
      split; [reflexivity|]. split; [reflexivity|].
      intros k s Hk. discriminate.
  - destruct fuel as [|fuel]; [lia|].
    destruct Hle as [Hle|Hle]; [discriminate|].
    rewrite Qnat_S in Hle, Hgt.
    pose proof (Qnat_nonneg n) as Hn.
    assert (Hd : (d <= totalDist)%Q) by nra.
    cbn [resample_loop].
    apply Qle_bool_iff in Hd. rewrite Hd.
    destruct (advance_Ok (S fuel) idx d) as (idx' & -> & _); [lia|].
    cbn [bind].
    destruct (sample_at_Ok idx' d Hne) as (s & -> & Hs).
    cbn [bind].
    destruct (IH fuel (d + SAMPLE)%Q idx' (acc ++ [s])) as (out & -> & Hlen' & Hdist).
    + split; [lra|].
      destruct n as [|n]; [left; reflexivity|right].
      rewrite Qnat_S in *. lra.
    + lia.
    + exists (s :: out). rewrite <- app_assoc. split; [reflexivity|].
      split; [simpl; lia|].
      intros [|k] s' Hk; simpl in Hk.
      * injection Hk as <-. rewrite Hs. change (Qnat 0) with 0%Q. lra.
      * rewrite (Hdist k s' Hk). rewrite Qnat_S. lra.
Qed.
End ResampleFacts.

Lemma floor_bounds (SAMPLE totalDist : Q) :
  (0 < SAMPLE)%Q ->
  (inject_Z (Qfloor (totalDist / SAMPLE)) * SAMPLE <= totalDist)%Q /\
  (totalDist < (inject_Z (Qfloor (totalDist / SAMPLE)) + 1) * SAMPLE)%Q.
Proof.
  intros HS.
  pose proof (Qfloor_le (totalDist / SAMPLE)) as Hlo.
  pose proof (Qlt_floor (totalDist / SAMPLE)) as Hhi.
  rewrite inject_Z_plus in Hhi. change (inject_Z 1) with 1%Q in Hhi.
  assert (Heq : (totalDist == totalDist / SAMPLE * SAMPLE)%Q) by (field; lra).
  set (q := (totalDist / SAMPLE)%Q) in *.
  set (f := inject_Z (Qfloor q)) in *.
  split; rewrite Heq at 1; nra.
Qed.

Lemma remaining_iterations (SAMPLE totalDist : Q) :
  (0 < SAMPLE)%Q -> remaining SAMPLE totalDist 0%Q (iterations SAMPLE totalDist).
Proof.
  intros HS. unfold remaining, iterations.
  destruct (floor_bounds SAMPLE totalDist HS) as [Hlo Hhi].
  set (f := Qfloor (totalDist / SAMPLE)) in *.
  destruct (Z_le_gt_dec (f + 1) 0) as [Hneg|Hpos].
  - replace (Z.to_nat (f + 1)) with 0%nat by lia.
    change (Qnat 0) with 0%Q. split; [|left; reflexivity].
    assert (inject_Z f + 1 <= 0)%Q.
    { change 1%Q with (inject_Z 1). rewrite <- inject_Z_plus.
      change 0%Q with (inject_Z 0). rewrite <- Zle_Qle. exact Hneg. }
    nra.
  - assert (Hn : (Qnat (Z.to_nat (f + 1)) == inject_Z f + 1)%Q).
    { unfold Qnat. rewrite Z2Nat.id by lia. rewrite inject_Z_plus. reflexivity. }
    rewrite Hn. split; [lra|right; lra].
Qed.

Lemma iterations_nonneg (SAMPLE totalDist : Q) :
  (0 < SAMPLE)%Q -> (0 <= totalDist)%Q ->
  iterations SAMPLE totalDist = Z.to_nat (Qfloor (totalDist / SAMPLE)) + 1.
Proof.
  intros HS Ht. unfold iterations.
  assert (0 <= Qfloor (totalDist / SAMPLE))%Z.
  { change 0%Z with (Qfloor 0). apply Qfloor_resp_le.
    apply Qle_shift_div_l; lra. }
  rewrite Z2Nat.inj_add by lia. reflexivity.
Qed.

Lemma resample_Ok (SAMPLE : Q) pts cumDist (totalDist : Q) fuel :
  (0 < SAMPLE)%Q -> pts <> [] ->
  iterations SAMPLE totalDist + length pts <= fuel ->
  exists samples,
    resample SAMPLE pts cumDist totalDist fuel = Ok samples /\
    length samples = iterations SAMPLE totalDist /\
    forall k s, samples !! k = Some s -> (dist s == Qnat k * SAMPLE)%Q.
Proof.
  intros HS Hne Hfuel. unfold resample.
  destruct (resample_loop_spec SAMPLE pts cumDist totalDist _ HS Hne fuel 0%Q 0 []
              (remaining_iterations SAMPLE totalDist HS) Hfuel)
    as (out & Hout & Hlen & Hdist).
  exists out. split; [exact Hout|]. split; [exact Hlen|].
  intros k s Hk. rewrite (Hdist k s Hk). lra.
Qed.

(** C4: for a track with at least one point, a total distance
    [totalDist >= 0] and a step [S > 0], the resampler returns
    [floor(totalDist / S) + 1] samples; sample [k] is at distance [k * S],
    and the last one is at the largest multiple of [S] that does not exceed
    [totalDist]. *)
Theorem resample_length (SAMPLE : Q) pts cumDist (totalDist : Q) fuel :
  (0 < SAMPLE)%Q -> (0 <= totalDist)%Q -> pts <> [] ->
  Z.to_nat (Qfloor (totalDist / SAMPLE)) + 1 + length pts <= fuel ->
  exists samples,
    resample SAMPLE pts cumDist totalDist fuel = Ok samples /\
    length samples = Z.to_nat (Qfloor (totalDist / SAMPLE)) + 1 /\
    (forall k s, samples !! k = Some s -> (dist s == Qnat k * SAMPLE)%Q) /\
    (forall s, last samples = Some s ->
               (dist s <= totalDist)%Q /\ (totalDist < dist s + SAMPLE)%Q).
Proof.
  intros HS Ht Hne Hfuel.
  rewrite <- (iterations_nonneg SAMPLE totalDist HS Ht) in *.
  destruct (resample_Ok SAMPLE pts cumDist totalDist fuel HS Hne Hfuel)
    as (samples & Hres & Hlen & Hdist).
  exists samples. split; [exact Hres|]. split; [exact Hlen|].
  split; [exact Hdist|].
  intros s Hlast. rewrite last_lookup in Hlast.
  rewrite (Hdist _ _ Hlast).
  destruct (floor_bounds SAMPLE totalDist HS) as [Hlo Hhi].
  assert (Hn : (Qnat (Init.Nat.pred (length samples))
                == inject_Z (Qfloor (totalDist / SAMPLE)))%Q).
  { rewrite Hlen, (iterations_nonneg SAMPLE totalDist HS Ht).
    replace (Init.Nat.pred (Z.to_nat (Qfloor (totalDist / SAMPLE)) + 1))
      with (Z.to_nat (Qfloor (totalDist / SAMPLE))) by lia.
    unfold Qnat. rewrite Z2Nat.id; [reflexivity|].
    change 0%Z with (Qfloor 0). apply Qfloor_resp_le.
    apply Qle_shift_div_l; lra. }
  rewrite Hn. split; lra.
Qed.

Lemma resample_length_witness :
  exists samples,
    resample 25 [ {| ele := 100 |}; {| ele := 110 |}; {| ele := 100 |} ]
      [0; 50; 100]%Q 100 8 = Ok samples /\
    length samples = 5.
Proof.
  destruct (resample_length 25 [ {| ele := 100 |}; {| ele := 110 |}; {| ele := 100 |} ]
              [0; 50; 100]%Q 100 8) as (samples & H & Hlen & _).
  - reflexivity.
  - unfold Qle. simpl. lia.
  - discriminate.
  - vm_compute. lia.
  - exists samples. split; [exact H | exact Hlen].
Defined.

Lemma sample_at_coincident pts cumDist idx d d1 d2 p1 :
  idx < length pts - 1 ->
  cumDist !! idx = Some d1 -> cumDist !! (idx + 1) = Some d2 ->
  (d2 == d1)%Q -> pts !! idx = Some p1 ->
  exists s, sample_at pts cumDist idx d = Ok s /\ dist s = d /\ (s_ele s == ele p1)%Q.
Proof.
  intros Hidx H1 H2 Heq Hp1. unfold sample_at.
  assert (E : (length pts - 1 <=? idx) = false) by (apply Nat.leb_gt; exact Hidx).
  rewrite E, Hp1.
  destruct (lookup_lt_is_Some_2 pts (idx + 1)) as [p2 Hp2]; [lia|].
  rewrite Hp2.
  rewrite (fraction_coincident cumDist idx d d1 d2 H1 H2) by lra.
  simpl. eexists. split; [reflexivity|]. split; [reflexivity|]. simpl. lra.
Qed.

Lemma sample_at_end pts cumDist idx d :
  pts <> [] -> length pts - 1 <= idx ->
  exists p, last pts = Some p /\
            sample_at pts cumDist idx d = Ok {| dist := d; s_ele := ele p |}.
Proof.
  intros Hne Hidx. rewrite sample_at_last by exact Hidx.
  destruct (last pts) as [p|] eqn:E.
  - exists p. split; reflexivity.
  - apply last_None in E. contradiction.
Qed.

(** C9: on a track with at least one point the resampler neither divides by
    zero nor reads past the points: the run returns its samples; the
    fraction [t] is always a number, and it is 0 when the bracketing
    distances coincide, so that the sample has the elevation of the earlier
    point; once the index is at the last point the sample has the elevation
    of the last point; and for a total distance of 0 the run returns one
    sample, at distance 0. *)
Theorem resample_safe (SAMPLE : Q) pts cumDist (totalDist : Q) fuel :
  (0 < SAMPLE)%Q -> pts <> [] ->
  iterations SAMPLE totalDist + length pts <= fuel ->
  (exists samples, resample SAMPLE pts cumDist totalDist fuel = Ok samples) /\
  (forall idx d, exists t, fraction cumDist idx d = Ok t) /\
  (forall idx d d1 d2 p1,
      idx < length pts - 1 ->
      cumDist !! idx = Some d1 -> cumDist !! (idx + 1) = Some d2 ->
      (d2 == d1)%Q -> pts !! idx = Some p1 ->
      fraction cumDist idx d = Ok 0%Q /\
      exists s, sample_at pts cumDist idx d = Ok s /\ (s_ele s == ele p1)%Q) /\
  (forall idx d,
      length pts - 1 <= idx ->
      exists p, last pts = Some p /\
                sample_at pts cumDist idx d = Ok {| dist := d; s_ele := ele p |}) /\
  ((totalDist == 0)%Q ->
   exists s, resample SAMPLE pts cumDist totalDist fuel = Ok [s] /\ dist s = 0%Q).
Proof.
  intros HS Hne Hfuel.
  destruct (resample_Ok SAMPLE pts cumDist totalDist fuel HS Hne Hfuel)
    as (samples & Hres & Hlen & Hdist).
  split; [eauto|].
  split; [intros idx d; apply fraction_Ok|].
  split.
  { intros idx d d1 d2 p1 Hidx H1 H2 Heq Hp1. split.
    - apply (fraction_coincident cumDist idx d d1 d2 H1 H2). lra.
    - destruct (sample_at_coincident pts cumDist idx d d1 d2 p1 Hidx H1 H2 Heq Hp1)
        as (s & Hs & _ & He).
      eauto. }
  split; [intros idx d Hidx; apply sample_at_end; assumption|].
  intros Hzero.
  assert (Hit : iterations SAMPLE totalDist = 1).
  { unfold iterations.
    assert (Hq : (totalDist / SAMPLE == 0)%Q) by (rewrite Hzero; field; lra).
    rewrite Hq. reflexivity. }
  destruct fuel as [|fuel]; [lia|].
  unfold resample in *. cbn [resample_loop] in *.
  assert (Hle : Qle_bool 0 totalDist = true) by (apply Qle_bool_iff; lra).
  rewrite Hle in *.
  destruct (advance pts cumDist (S fuel) 0 0) as [idx'|e]; [|discriminate].
  cbn [bind] in *.
  destruct (sample_at_Ok pts cumDist idx' 0%Q Hne) as (s & Hs & Hd).
  rewrite Hs in *. cbn [bind] in *.
  exists s. split; [|exact Hd].
  rewrite Hres. f_equal.
  destruct (resample_loop_spec SAMPLE pts cumDist totalDist 0 HS Hne fuel
              (0 + SAMPLE)%Q idx' ([] ++ [s])) as (out & Hout & Hlen' & _).
  - split; [change (Qnat 0) with 0%Q; lra | left; reflexivity].
  - lia.
  - rewrite Hout in Hres. injection Hres as <-.
    destruct out; [reflexivity | discriminate].
Qed.

Lemma resample_safe_witness :
  exists s, resample 25 [ {| ele := 7 |}; {| ele := 9 |} ] [0; 0]%Q 0 3 = Ok [s] /\
            dist s = 0%Q.
Proof.
  apply (resample_safe 25 [ {| ele := 7 |}; {| ele := 9 |} ] [0; 0]%Q 0 3).
  - reflexivity.
  - discriminate.
  - vm_compute. lia.
  - reflexivity.
Defined.

(** ** The smoother *)

Lemma map_index_spec {A B : Type} (f : A -> nat -> res B) (P : nat -> A -> B -> Prop) :
  forall l off,
    (forall i a, l !! i = Some a -> exists b, f a (off + i) = Ok b /\ P (off + i) a b) ->
    exists bs,
      map_index f off l = Ok bs /\ length bs = length l /\
      forall i a, l !! i = Some a -> exists b, bs !! i = Some b /\ P (off + i) a b.
Proof.
  induction l as [|a l IH]; intros off Hf.
  - exists []. split; [reflexivity|]. split; [reflexivity|]. intros i a Hi. discriminate.
  - destruct (Hf 0 a eq_refl) as (b & Hb & HP).
    rewrite Nat.add_0_r in Hb, HP.
    destruct (IH (S off)) as (bs & Hbs & Hlen & Hall).
    { intros i a' Hi. destruct (Hf (S i) a' Hi) as (b' & Hb' & HP').
      rewrite Nat.add_succ_r in Hb', HP'. eauto. }
    exists (b :: bs). cbn [map_index]. rewrite Hb. cbn [bind]. rewrite Hbs. cbn [bind].
    split; [reflexivity|]. split; [simpl; lia|].
    intros [|i] a' Hi; simpl in Hi.
    + injection Hi as <-. exists b. rewrite Nat.add_0_r. split; [reflexivity | exact HP].
    + destruct (Hall i a' Hi) as (b' & Hb' & HP'). exists b'.
      rewrite Nat.add_succ_r. split; [exact Hb' | exact HP'].
Qed.

Lemma fold_window_step (samples : list sample) :
  forall k lo s c,
    lo + k <= length samples ->
    exists s',
      fold_left (window_step samples) (seqZ (Z.of_nat lo) (Z.of_nat k)) (Ok (s, c))
      = Ok (s', c + k) /\
      (s' == s + Qsum (map s_ele (take k (drop lo samples))))%Q.
Proof.
  induction k as [|k IH]; intros lo s c Hle.
  - exists s. rewrite seqZ_nil by lia. rewrite Nat.add_0_r. split; [reflexivity|].
    rewrite take_0. simpl. lra.
  - destruct (lookup_lt_is_Some_2 samples lo) as [smp Hsmp]; [lia|].
    rewrite seqZ_cons by lia.
    rewrite Nat2Z.inj_succ, Z.pred_succ, <- Nat2Z.inj_succ.
    cbn [fold_left]. unfold window_step at 2. cbn [bind].
    rewrite Nat2Z.id, Hsmp. cbn [prop_of bind fst snd].
    destruct (IH (S lo) (s + s_ele smp)%Q (c + 1)) as (s' & Hs' & Heq); [lia|].
    exists s'. rewrite Hs'. split; [f_equal; f_equal; lia|].
    rewrite (drop_S _ _ _ Hsmp). cbn [take map Qsum fold_right].
    rewrite Heq. unfold Qsum. lra.
Qed.

Lemma window_clipped (half : Z) (samples : list sample) (i : nat) :
  (0 <= half)%Z -> i < length samples ->
  window half samples i =
    seqZ (Z.of_nat (i - Z.to_nat half))
         (Z.of_nat (Nat.min (length samples - 1) (i + Z.to_nat half)
                    - (i - Z.to_nat half) + 1)).
Proof.
  intros Hh Hi. unfold window. f_equal; lia.
Qed.

Lemma clipped_window_length (half : nat) (samples : list sample) (i : nat) :
  i < length samples ->
  length (clipped_window half samples i)
  = Nat.min (length samples - 1) (i + half) - (i - half) + 1.
Proof.
  intros Hi. unfold clipped_window. rewrite length_take, length_drop. lia.
Qed.

Lemma smooth_at_spec (half : Z) (samples : list sample) (s : sample) (i : nat) :
  (0 <= half)%Z -> i < length samples ->
  exists s',
    smooth_at half samples s i = Ok s' /\ dist s' = dist s /\
    (s_ele s' == mean (map s_ele (clipped_window (Z.to_nat half) samples i)))%Q.
Proof.
  intros Hh Hi. unfold smooth_at, window_sum.
  rewrite (window_clipped half samples i Hh Hi).
  set (lo := i - Z.to_nat half).
  set (hi := Nat.min (length samples - 1) (i + Z.to_nat half)).
  destruct (fold_window_step samples (hi - lo + 1) lo 0%Q 0) as (sum & -> & Hsum);
    [lia|].
  cbn [bind fst snd].
  assert (Hcount : ~ (inject_Z (Z.of_nat (0 + (hi - lo + 1))) == 0)%Q).
  { change 0%Q with (inject_Z 0). rewrite inject_Z_injective. lia. }
  rewrite (div_Ok _ _ Hcount). cbn [bind].
  eexists. split; [reflexivity|]. split; [reflexivity|].
  cbn [s_ele]. unfold mean.
  rewrite length_map, (clipped_window_length _ _ _ Hi).
  fold lo hi. unfold clipped_window. fold lo hi.
  unfold Qnat. rewrite Hsum. simpl (0 + (hi - lo + 1)).
  field. exact Hcount.
Qed.

Lemma smooth_spec (half : Z) (samples : list sample) :
  (0 <= half)%Z ->
  exists smoothed,
    smooth half samples = Ok smoothed /\
    length smoothed = length samples /\
    forall i s, samples !! i = Some s ->
      exists s', smoothed !! i = Some s' /\ dist s' = dist s /\
        (s_ele s' == mean (map s_ele (clipped_window (Z.to_nat half) samples i)))%Q.
Proof.
  intros Hh. unfold smooth.
  destruct (map_index_spec (smooth_at half samples)
              (fun i s s' => dist s' = dist s /\
                 (s_ele s' == mean (map s_ele (clipped_window (Z.to_nat half) samples i)))%Q)
              samples 0) as (smoothed & Hsm & Hlen & Hall).
  - intros i s Hi. simpl.
    apply lookup_lt_Some in Hi.
    destruct (smooth_at_spec half samples s i Hh Hi) as (s' & Hs' & Hd & He).
    eauto.
  - exists smoothed. split; [exact Hsm|]. split; [exact Hlen|].
    intros i s Hi. destruct (Hall i s Hi) as (s' & Hs' & Hd & He).
    exists s'. simpl in *. auto.
Qed.



(** ** [Math.max] and [Math.min] *)

Lemma Math_max_fold (l : list Q) (h : Q) :
  exists M,
    fold_left (fun highest v =>
                 match highest with
                 | None => Some v
                 | Some h => if Qltb h v then Some v else Some h
                 end) l (Some h) = Some M /\
    (M = h \/ M ∈ l) /\ (h <= M)%Q /\ forall v, v ∈ l -> (v <= M)%Q.
Proof.
  revert h. induction l as [|a l IH]; intros h.
  - exists h. split; [reflexivity|]. split; [left; reflexivity|].
    split; [lra|]. intros v Hv. inversion Hv.
  - cbn [fold_left].
    destruct (Qltb h a) eqn:E.
    + apply Qltb_lt in E.
      destruct (IH a) as (M & HM & Hin & Hle & Hub).
      exists M. split; [exact HM|].
      split; [right; destruct Hin as [->|Hin]; [left | right; exact Hin]|].
      split; [lra|].
      intros v Hv. apply elem_of_cons in Hv as [->|Hv]; [exact Hle | auto].
    + apply Qltb_ge in E.
      destruct (IH h) as (M & HM & Hin & Hle & Hub).
      exists M. split; [exact HM|].
      split; [destruct Hin as [->|Hin]; [left; reflexivity | right; right; exact Hin]|].
      split; [exact Hle|].
      intros v Hv. apply elem_of_cons in Hv as [->|Hv]; [lra | auto].
Qed.

Lemma Math_min_fold (l : list Q) (h : Q) :
  exists m,
    fold_left (fun lowest v =>
                 match lowest with
                 | None => Some v
                 | Some l => if Qltb v l then Some v else Some l
                 end) l (Some h) = Some m /\
    (m = h \/ m ∈ l) /\ (m <= h)%Q /\ forall v, v ∈ l -> (m <= v)%Q.
Proof.
  revert h. induction l as [|a l IH]; intros h.
  - exists h. split; [reflexivity|]. split; [left; reflexivity|].
    split; [lra|]. intros v Hv. inversion Hv.
  - cbn [fold_left].
    destruct (Qltb a h) eqn:E.
    + apply Qltb_lt in E.
      destruct (IH a) as (m & Hm & Hin & Hle & Hlb).
      exists m. split; [exact Hm|].
      split; [right; destruct Hin as [->|Hin]; [left | right; exact Hin]|].
      split; [lra|].
      intros v Hv. apply elem_of_cons in Hv as [->|Hv]; [exact Hle | auto].
    + apply Qltb_ge in E.
      destruct (IH h) as (m & Hm & Hin & Hle & Hlb).
      exists m. split; [exact Hm|].
      split; [destruct Hin as [->|Hin]; [left; reflexivity | right; right; exact Hin]|].
      split; [exact Hle|].
      intros v Hv. apply elem_of_cons in Hv as [->|Hv]; [lra | auto].
Qed.

Lemma Math_max_is_max (l : list Q) :
  l <> [] -> exists M, Math_max l = Some M /\ is_max M l.
Proof.
  destruct l as [|a l]; [congruence|]. intros _.
  unfold Math_max. cbn [fold_left].
  destruct (Math_max_fold l a) as (M & HM & Hin & Hle & Hub).
  exists M. split; [exact HM|]. split.
  - destruct Hin as [->|Hin]; [left | right; exact Hin].
  - intros v Hv. apply elem_of_cons in Hv as [->|Hv]; [exact Hle | auto].
Qed.

Lemma Math_min_is_min (l : list Q) :
  l <> [] -> exists m, Math_min l = Some m /\ is_min m l.
Proof.
  destruct l as [|a l]; [congruence|]. intros _.
  unfold Math_min. cbn [fold_left].
  destruct (Math_min_fold l a) as (m & Hm & Hin & Hle & Hlb).
  exists m. split; [exact Hm|]. split.
  - destruct Hin as [->|Hin]; [left | right; exact Hin].
  - intros v Hv. apply elem_of_cons in Hv as [->|Hv]; [exact Hle | auto].
Qed.

(** ** The gain/loss accumulator *)







Lemma accumulate_run (T : Q) (s0 : sample) (rest : list sample) :
  accumulate T (s0 :: rest) = Ok (acc_run T (s_ele s0) (map s_ele rest)).
Proof. reflexivity. Qed.







(** ** The slope annotator *)

Section Annotate.
Variable Math_atan : Q -> Q.

Lemma slope_step_spec (cd : list chart_point) (i : nat) (p q : chart_point) :
  cd !! i = Some p -> cd !! (i + 1) = Some q ->
  slope_step Math_atan (Ok cd) i
  = Ok (<[ i := annotated Math_atan p (Some q) ]> cd).
Proof.
  intros Hp Hq. unfold slope_step. cbn [bind]. rewrite Hp, Hq. cbn [prop_of bind].
  unfold annotated.
  destruct (Qltb 0 (x q - x p)) eqn:E.
  - apply Qltb_lt in E. rewrite div_Ok by lra. reflexivity.
  - rewrite list_insert_id by exact Hp. reflexivity.
Qed.

Lemma slope_loop_spec (cd : list chart_point) (k : nat) :
  k <= length cd - 1 ->
  exists cd',
    fold_left (slope_step Math_atan) (seq 0 k) (Ok cd) = Ok cd' /\
    length cd' = length cd /\
    forall i p, cd !! i = Some p ->
      cd' !! i = Some (if i <? k then annotated Math_atan p (cd !! (i + 1)) else p).
Proof.
  induction k as [|k IH]; intros Hk.
  - exists cd. split; [reflexivity|]. split; [reflexivity|].
    intros i p Hp. exact Hp.
  - destruct IH as (cd' & Hfold & Hlen & Hall); [lia|].
    rewrite seq_S, fold_left_app, Hfold. cbn [fold_left Nat.add].
    destruct (lookup_lt_is_Some_2 cd k) as [p Hp]; [lia|].
    destruct (lookup_lt_is_Some_2 cd (k + 1)) as [q Hq]; [lia|].
    pose proof (Hall k p Hp) as Hp'. rewrite Nat.ltb_irrefl in Hp'.
    pose proof (Hall (k + 1) q Hq) as Hq'.
    replace (k + 1 <? k) with false in Hq' by (symmetry; apply Nat.ltb_ge; lia).
    rewrite (slope_step_spec cd' k p q Hp' Hq').
    eexists. split; [reflexivity|]. split; [rewrite length_insert; exact Hlen|].
    intros i p0 Hp0.
    destruct (decide (i = k)) as [->|Hne].
    + rewrite list_lookup_insert_eq by (rewrite Hlen; lia).
      replace (k <? S k) with true by (symmetry; apply Nat.ltb_lt; lia).
      rewrite Hp in Hp0. injection Hp0 as <-. rewrite Hq. reflexivity.
    + rewrite list_lookup_insert_ne by congruence.
      rewrite (Hall i p0 Hp0).
      destruct (i <? k) eqn:E1; destruct (i <? S k) eqn:E2;
        try reflexivity;
        [apply Nat.ltb_lt in E1; apply Nat.ltb_ge in E2
        |apply Nat.ltb_ge in E1; apply Nat.ltb_lt in E2]; lia.
Qed.

Lemma annotate_spec (cd : list chart_point) :
  exists cd',
    annotate Math_atan cd = Ok cd' /\
    length cd' = length cd /\
    forall i p, cd !! i = Some p ->
      cd' !! i = Some (annotated Math_atan p (cd !! (i + 1))).
Proof.
  unfold annotate.
  destruct (slope_loop_spec cd (length cd - 1)) as (cd' & Hfold & Hlen & Hall); [lia|].
  exists cd'. split; [exact Hfold|]. split; [exact Hlen|].
  intros i p Hp. rewrite (Hall i p Hp).
  destruct (i <? length cd - 1) eqn:E; [reflexivity|].
  apply Nat.ltb_ge in E.
  rewrite (proj2 (lookup_ge_None cd (i + 1))) by lia. reflexivity.
Qed.

Lemma annotate_last (cd cd' : list chart_point) (p : chart_point) :
  annotate Math_atan cd = Ok cd' -> last cd' = Some p -> last cd = Some p.
Proof.
  intros Hann Hlast.
  destruct (annotate_spec cd) as (cd2 & Hcd2 & Hlen & Hall).
  rewrite Hann in Hcd2. injection Hcd2 as <-.
  rewrite last_lookup in *. rewrite Hlen in Hlast.
  destruct (cd !! Init.Nat.pred (length cd)) as [p0|] eqn:E.
  - rewrite (Hall _ _ E) in Hlast.
    pose proof (lookup_lt_Some _ _ _ E) as Hlt.
    rewrite (proj2 (lookup_ge_None cd (Init.Nat.pred (length cd) + 1))) in Hlast by lia.
    exact Hlast.
  - apply lookup_ge_None in E.
    rewrite (proj2 (lookup_ge_None cd' (Init.Nat.pred (length cd)))) in Hlast
      by (rewrite Hlen; exact E).
    discriminate.
Qed.
End Annotate.

(** ** The pipeline *)

Lemma half_window_default : half_window SMOOTH_DISTANCE SAMPLE_DISTANCE = Ok 2%Z.
Proof. reflexivity. Qed.

Lemma processGPX_inv atan simplify fuel gpx out :
  processGPX atan simplify fuel gpx = Ok out ->
  exists t rest smoothed st,
    tracks gpx = Some (t :: rest) /\
    smoothed_of fuel t = Ok smoothed /\
    accumulate THRESHOLD smoothed = Ok st /\
    annotate atan (map to_chart (simplify (map to_xy smoothed) simplifyTolerance true))
    = Ok (chartData out) /\
    stats out = make_stats (total (distance t)) st smoothed.
Proof.
  unfold processGPX.
  destruct (tracks gpx) as [[|t rest]|]; [discriminate| |discriminate].
  intros H.
  apply bind_Ok in H as (smoothed & Hsm & H).
  apply bind_Ok in H as (st & Hst & H).
  apply bind_Ok in H as (chart & Hchart & H).
  injection H as <-.
  exists t, rest, smoothed, st. auto.
Qed.



(** C8: the last element of the chart data that [processGPX] returns has
    the slope 0. *)
Theorem last_slope_zero atan simplify fuel gpx out p :
  processGPX atan simplify fuel gpx = Ok out ->
  last (chartData out) = Some p ->
  slope p = JNum 0.
Proof.
  intros Hrun Hlast.
  destruct (processGPX_inv _ _ _ _ _ Hrun)
    as (t & rest & smoothed & st & _ & _ & _ & Hann & _).
  apply (annotate_last _ _ _ _ Hann) in Hlast.
  rewrite last_lookup, list_lookup_fmap in Hlast.
  destruct (simplify _ _ _ !! _) as [p0|]; [|discriminate].
  injection Hlast as <-. reflexivity.
Qed.

Lemma last_slope_zero_witness :
  exists out p,
    processGPX atan_series simplify_hq 8
      (one_track [100; 110; 100]%Q [0; 50; 100]%Q 100) = Ok out /\
    last (chartData out) = Some p /\
    slope p = JNum 0.
Proof.
  eexists. eexists.
  split; [vm_compute; reflexivity|].
  split; [reflexivity|].
  eapply (last_slope_zero atan_series simplify_hq 8
            (one_track [100; 110; 100]%Q [0; 50; 100]%Q 100)).
  - vm_compute. reflexivity.
  - reflexivity.
Defined.

Lemma toFixed_0 (v : Q) :
  toFixed 0 v
  = ((if Qltb v 0 then "-" else "") ++ digits (Math_round (Qabs v)))%string.
Proof.
  unfold toFixed, Math_round. cbn [Nat.eqb Z.of_nat Z.pow].
  f_equal. f_equal.
  destruct (Qltb v 0) eqn:E.
  - apply Qltb_lt in E. apply Qfloor_comp.
    rewrite Qabs_neg by lra.
    change (inject_Z (10 ^ Z.of_nat 0)) with 1%Q. lra.
  - apply Qltb_ge in E. apply Qfloor_comp.
    rewrite Qabs_pos by lra.
    change (inject_Z (10 ^ Z.of_nat 0)) with 1%Q. lra.
Qed.

(** C3: in the stats that [processGPX] returns, [maxElevation] and
    [minElevation] are the largest and the smallest elevation of the
    smoothed samples (the output of the smoother on the resampled track),
    rounded to an integer and written as text by [toFixed(0)]. *)
Theorem stats_extrema atan simplify fuel gpx out :
  processGPX atan simplify fuel gpx = Ok out ->
  exists t rest smoothed M m,
    tracks gpx = Some (t :: rest) /\
    smoothed_of fuel t = Ok smoothed /\
    is_max M (map s_ele smoothed) /\
    is_min m (map s_ele smoothed) /\
    maxElevation (stats out)
    = ((if Qltb M 0 then "-" else "") ++ digits (Math_round (Qabs M)))%string /\
    minElevation (stats out)
    = ((if Qltb m 0 then "-" else "") ++ digits (Math_round (Qabs m)))%string.
Proof.
  intros Hrun.
  destruct (processGPX_inv _ _ _ _ _ Hrun)
    as (t & rest & smoothed & st & Htr & Hsm & Hst & _ & Hstats).
  assert (Hne : map s_ele smoothed <> []).
  { destruct smoothed; [discriminate Hst | discriminate]. }
  destruct (Math_max_is_max _ Hne) as (M & HM & HisM).
  destruct (Math_min_is_min _ Hne) as (m & Hm & Hism).
  exists t, rest, smoothed, M, m.
  rewrite Hstats. unfold make_stats. cbn [maxElevation minElevation].
  rewrite HM, Hm. cbn [toFixed_ext]. rewrite !toFixed_0. auto 10.
Qed.

Lemma stats_extrema_witness :
  exists out,
    processGPX atan_series simplify_hq 8
      (one_track [100; 110; 100]%Q [0; 50; 100]%Q 100) = Ok out /\
    exists t rest smoothed M m,
      tracks (one_track [100; 110; 100]%Q [0; 50; 100]%Q 100) = Some (t :: rest) /\
      smoothed_of 8 t = Ok smoothed /\
      is_max M (map s_ele smoothed) /\
      is_min m (map s_ele smoothed) /\
      maxElevation (stats out)
      = ((if Qltb M 0 then "-" else "") ++ digits (Math_round (Qabs M)))%string /\
      minElevation (stats out)
      = ((if Qltb m 0 then "-" else "") ++ digits (Math_round (Qabs m)))%string.
Proof.
  eexists. split; [vm_compute; reflexivity|].
  apply (stats_extrema atan_series simplify_hq 8
           (one_track [100; 110; 100]%Q [0; 50; 100]%Q 100)).
  vm_compute. reflexivity.
Defined.

(** C1 on the code: a missing or empty track list is reported by the error
    of the guard, but a first track without points passes the guard and
    ends in a [TypeError], thrown in the resampling loop when
    [points[points.length - 1]] is [undefined]. *)
Theorem empty_track_outcomes atan simplify fuel :
  processGPX atan simplify fuel {| tracks := None |} = Err NoTracksFound /\
  processGPX atan simplify fuel {| tracks := Some [] |} = Err NoTracksFound /\
  processGPX atan simplify (S fuel) (one_track [] [] 0) = Err TypeError /\
  resample SAMPLE_DISTANCE [] [] 0 (S fuel) = Err TypeError.
Proof.
  repeat split; reflexivity.
Qed.


(** On a track with at least one point and a total distance of at least 0
    the call returns, whatever the simplifier does. *)
Lemma processGPX_returns atan simplify fuel t rest :
  points t <> [] -> (0 <= total (distance t))%Q ->
  iterations SAMPLE_DISTANCE (total (distance t)) + length (points t) <= fuel ->
  exists out, processGPX atan simplify fuel {| tracks := Some (t :: rest) |} = Ok out.
Proof.
  intros Hne Htot Hfuel.
  assert (HS : (0 < SAMPLE_DISTANCE)%Q) by reflexivity.
  destruct (resample_Ok SAMPLE_DISTANCE (points t) (cumul (distance t))
              (total (distance t)) fuel HS Hne Hfuel) as (samples & Hres & Hlen & _).
  rewrite (iterations_nonneg _ _ HS Htot) in Hlen.
  destruct (smooth_spec 2 samples) as (smoothed & Hsm & Hlen' & _); [lia|].
  unfold processGPX, smoothed_of. cbn [tracks].
  rewrite Hres. cbn [bind]. rewrite half_window_default. cbn [bind].
  rewrite Hsm. cbn [bind].
  destruct smoothed as [|s0 more]; [simpl in Hlen'; lia|].
  rewrite accumulate_run. cbn [bind].
  destruct (annotate_spec atan
              (map to_chart (simplify (map to_xy (s0 :: more)) simplifyTolerance true)))
    as (chart & -> & _).
  cbn [bind]. eauto.
Qed.

(** A first track without points ends in a [TypeError], whatever its
    distances are: in the resampling loop when the total distance is at
    least 0, and at [smoothed[0].ele] otherwise. *)
Lemma processGPX_no_points atan simplify fuel cumDist totalDist rest :
  processGPX atan simplify (S fuel)
    {| tracks := Some ({| points := [];
                          distance := {| cumul := cumDist; total := totalDist |} |}
                       :: rest) |}
  = Err TypeError.
Proof.
  unfold processGPX, smoothed_of, resample.
  cbn [tracks points distance cumul total resample_loop].
  destruct (Qle_bool 0 totalDist); reflexivity.
Qed.

(** ** The curve simplifier *)

Module SimplifyFacts.
Import Simplify.

Lemma simplifyDPStep_sublist fuel :
  forall a mid b sqTolerance,
    simplifyDPStep fuel a mid b sqTolerance `sublist_of` mid.
Proof.
  induction fuel as [|fuel IH]; intros a mid b sqTolerance; cbn [simplifyDPStep].
  - apply sublist_nil_l.
  - destruct (snd (farthest a b mid 0 (sqTolerance, None))) as [index|];
      [|apply sublist_nil_l].
    destruct (mid !! index) as [p|] eqn:E; [|apply sublist_nil_l].
    rewrite <- (take_drop_middle mid index p E) at 3.
    apply sublist_app; [apply IH|].
    apply sublist_skip, IH.
Qed.

(** The fuel that [simplifyDouglasPeucker] passes is enough: more fuel
    gives the same result. *)
Lemma simplifyDPStep_fuel fuel1 :
  forall fuel2 a mid b sqTolerance,
    length mid <= fuel1 -> length mid <= fuel2 ->
    simplifyDPStep fuel1 a mid b sqTolerance = simplifyDPStep fuel2 a mid b sqTolerance.
Proof.
  induction fuel1 as [|fuel1 IH]; intros fuel2 a mid b sqTolerance H1 H2.
  - destruct mid; [|simpl in H1; lia].
    destruct fuel2; reflexivity.
  - destruct fuel2 as [|fuel2].
    + destruct mid; [reflexivity | simpl in H2; lia].
    + cbn [simplifyDPStep].
      destruct (snd (farthest a b mid 0 (sqTolerance, None))) as [index|];
        [|reflexivity].
      destruct (mid !! index) as [p|] eqn:E; [|reflexivity].
      apply lookup_lt_Some in E.
      f_equal; [|f_equal]; apply IH;
        rewrite ?length_take, ?length_drop; lia.
Qed.

Lemma simplifyDouglasPeucker_spec a rest b mid sqTolerance :
  rest = mid ++ [b] ->
  simplifyDouglasPeucker (a :: rest) sqTolerance
  = a :: simplifyDPStep (length mid) a mid b sqTolerance ++ [b].
Proof.
  intros ->. unfold simplifyDouglasPeucker.
  rewrite last_snoc, length_app. cbn [length].
  replace (length mid + 1 - 1) with (length mid) by lia.
  rewrite take_app_length. reflexivity.
Qed.

(** C7: for a non-empty point sequence, the simplifier returns a
    subsequence of its input, so that the output is no longer than the
    input and each of its points is a point of the input, and the output
    starts with the first and ends with the last point of the input. *)
Theorem simplify_fidelity (points : list xy) (tolerance : Q) :
  points <> [] ->
  head (simplify points tolerance) = head points /\
  last (simplify points tolerance) = last points /\
  length (simplify points tolerance) <= length points /\
  (forall p, p ∈ simplify points tolerance -> p ∈ points) /\
  simplify points tolerance `sublist_of` points.
Proof.
  intros Hne.
  assert (Hsub : simplify points tolerance `sublist_of` points /\
                 head (simplify points tolerance) = head points /\
                 last (simplify points tolerance) = last points).
  { unfold simplify.
    destruct (length points <=? 2) eqn:E; [auto|].
    apply Nat.leb_gt in E.
    destruct points as [|a rest]; [congruence|].
    destruct (last rest) as [b|] eqn:Hlast.
    - apply last_Some in Hlast as [mid ->].
      rewrite (simplifyDouglasPeucker_spec a _ b mid _ eq_refl).
      split; [|split].
      + apply sublist_skip, sublist_app; [apply simplifyDPStep_sublist | reflexivity].
      + reflexivity.
      + rewrite !app_comm_cons, !last_snoc. reflexivity.
    - apply last_None in Hlast. subst rest. simpl in E. lia. }
  destruct Hsub as (Hsub & Hhead & Hlast).
  split; [exact Hhead|]. split; [exact Hlast|].
  split; [apply sublist_length, Hsub|].
  split; [|exact Hsub].
  intros p Hp. exact (elem_of_sublist _ _ _ Hp Hsub).
Qed.

Example simplify_drops_point :
  simplify [ {| px := 0; py := 0 |}; {| px := 25; py := 1 |};
             {| px := 50; py := 2 |}; {| px := 75; py := 40 |};
             {| px := 100; py := 0 |} ] 3
  = [ {| px := 0; py := 0 |}; {| px := 50; py := 2 |};
      {| px := 75; py := 40 |}; {| px := 100; py := 0 |} ].
Proof. reflexivity. Qed.

Lemma simplify_fidelity_witness :
  head (simplify [ {| px := 0; py := 0 |}; {| px := 25; py := 1 |};
                   {| px := 50; py := 2 |}; {| px := 75; py := 40 |};
                   {| px := 100; py := 0 |} ] 3)
  = Some {| px := 0; py := 0 |} /\
  last (simplify [ {| px := 0; py := 0 |}; {| px := 25; py := 1 |};
                   {| px := 50; py := 2 |}; {| px := 75; py := 40 |};
                   {| px := 100; py := 0 |} ] 3)
  = Some {| px := 100; py := 0 |}.
Proof.
  destruct (simplify_fidelity
              [ {| px := 0; py := 0 |}; {| px := 25; py := 1 |};
                {| px := 50; py := 2 |}; {| px := 75; py := 40 |};
                {| px := 100; py := 0 |} ] 3) as (Hh & Hl & _).
  - discriminate.
  - split; [exact Hh | exact Hl].
Defined.
End SimplifyFacts.

(** ** End-to-end scenarios *)

(** Points at the distances 0, 50 and 100 with the elevations 100, 110 and
    100: the smoothed elevations stay within the threshold. *)
Example scenario_A :
  exists out,
    processGPX atan_series simplify_hq 8
      (one_track [100; 110; 100]%Q [0; 50; 100]%Q 100) = Ok out /\
    s_elevationGain (stats out) = "0"%string /\
    s_elevationLoss (stats out) = "0"%string /\
    s_distance (stats out) = "0.10"%string.
Proof.
  eexists. split; [vm_compute; reflexivity|]. repeat split.
Qed.

(** A rise from 0 m to 50 m over 1000 m. *)
Example scenario_B :
  exists out,
    processGPX atan_series simplify_hq 50 (one_track [0; 50]%Q [0; 1000]%Q 1000) = Ok out /\
    s_elevationGain (stats out) = "45"%string /\
    s_elevationLoss (stats out) = "0"%string /\
    maxElevation (stats out) = "49"%string /\
    minElevation (stats out) = "1"%string /\
    s_distance (stats out) = "1.00"%string.
Proof.
  eexists. split; [vm_compute; reflexivity|]. repeat split.
Qed.

(** ** Checks on concrete lists, for the examples *)



(** ** More on the resampler *)

Section ResampleRange.
Variable SAMPLE : Q.
Variable pts : list point.
Variable cumDist : list Q.
Variable totalDist : Q.




End ResampleRange.




(** Without that condition the first sample is extrapolated: with the
    first cumulative distance at 10 the sample at distance 0 is below
    both elevations. *)
Example resample_extrapolates :
  resample 25 [ {| ele := 0 |}; {| ele := 10 |} ] [10; 20]%Q 20 4
  = Ok [ {| dist := 0; s_ele := 0 + (0 - 10) / (20 - 10) * (10 - 0) |} ].
Proof. reflexivity. Qed.


Lemma resample_loop_prefix (SAMPLE : Q) pts cumDist (totalDist : Q) fuel :
  forall d idx acc out,
    resample_loop SAMPLE pts cumDist totalDist fuel d idx acc = Ok out ->
    exists more, out = acc ++ more.
Proof.
  induction fuel as [|fuel IH]; intros d idx acc out H; [discriminate|].
  cbn [resample_loop] in H.
  destruct (Qle_bool d totalDist).
  - apply bind_Ok in H as (idx' & _ & H).
    apply bind_Ok in H as (s & _ & H).
    destruct (IH _ _ _ _ H) as [more ->].
    exists (s :: more). rewrite <- app_assoc. reflexivity.
  - injection H as <-. exists []. rewrite app_nil_r. reflexivity.
Qed.

Lemma sample_at_start pts cumDist p0 rest d0 s :
  pts = p0 :: rest ->
  cumDist !! 0 = Some d0 -> (d0 == 0)%Q ->
  sample_at pts cumDist 0 0 = Ok s ->
  dist s = 0%Q /\ (s_ele s == ele p0)%Q.
Proof.
  intros -> Hd0 Hz. unfold sample_at.
  destruct (length (p0 :: rest) - 1 <=? 0) eqn:E.
  - apply Nat.leb_le in E.
    replace (length (p0 :: rest) - 1) with 0 by lia.
    change ((p0 :: rest) !! 0) with (Some p0).
    cbn [prop_of bind]. intros [= <-]. split; reflexivity.
  - change ((p0 :: rest) !! 0) with (Some p0).
    change ((p0 :: rest) !! (0 + 1)) with (rest !! 0).
    cbn [prop_of bind].
    destruct (rest !! 0) as [p1|] eqn:E1; [|discriminate].
    cbn [prop_of bind].
    intros H. apply bind_Ok in H as (t & Ht & [= <-]).
    split; [reflexivity|]. cbn [s_ele].
    assert (Hzero : (t == 0)%Q).
    { unfold fraction in Ht. rewrite Hd0 in Ht.
      destruct (cumDist !! (0 + 1)) as [d2|]; [|injection Ht as <-; reflexivity].
      destruct (Qltb d0 d2) eqn:El; [|injection Ht as <-; reflexivity].
      apply Qltb_lt in El. rewrite div_Ok in Ht by lra. injection Ht as <-.
      rewrite Hz. field. lra. }
    rewrite Hzero. lra.
Qed.

(** X2: when the first cumulative distance is 0, the second one, if any,
    is not negative and the total distance is at least 0, the first sample
    is at distance 0 and has the elevation of the first point. *)
Theorem resample_first_sample (SAMPLE : Q) pts cumDist (totalDist : Q) fuel
        p0 rest d0 samples :
  pts = p0 :: rest ->
  cumDist !! 0 = Some d0 -> (d0 == 0)%Q ->
  (forall v, cumDist !! 1 = Some v -> (0 <= v)%Q) ->
  (0 <= totalDist)%Q ->
  resample SAMPLE pts cumDist totalDist fuel = Ok samples ->
  exists s more,
    samples = s :: more /\ dist s = 0%Q /\ (s_ele s == ele p0)%Q.
Proof.
  intros Hpts Hd0 Hz Hd1 Htot. unfold resample.
  destruct fuel as [|fuel]; [discriminate|].
  cbn [resample_loop].
  apply Qle_bool_iff in Htot. rewrite Htot.
  assert (Hadv : advance pts cumDist (S fuel) 0 0 = Ok 0).
  { cbn [advance].
    assert (E : undef_lt (cumDist !! (0 + 1)) 0 = false).
    { unfold undef_lt. change (0 + 1) with 1.
      destruct (cumDist !! 1) as [v|] eqn:Ev; [|reflexivity].
      apply Qltb_ge. apply Hd1. reflexivity. }
    rewrite E, andb_false_r. reflexivity. }
  rewrite Hadv. cbn [bind]. intros H.
  apply bind_Ok in H as (s & Hs & H).
  destruct (resample_loop_prefix _ _ _ _ _ _ _ _ _ H) as [more ->].
  destruct (sample_at_start pts cumDist p0 rest d0 s Hpts Hd0 Hz Hs) as [Hd He].
  exists s, more. auto.
Qed.

Lemma resample_first_sample_witness :
  exists samples s more,
    resample 25 [ {| ele := 7 |}; {| ele := 9 |} ] [0; 50]%Q 50 6 = Ok samples /\
    samples = s :: more /\ dist s = 0%Q /\ (s_ele s == 7)%Q.
Proof.
  eexists.
  assert (Hrun : resample 25 [ {| ele := 7 |}; {| ele := 9 |} ] [0; 50]%Q 50 6 = Ok _)
    by (vm_compute; reflexivity).
  assert (Hd1 : forall v, [0; 50]%Q !! 1 = Some v -> (0 <= v)%Q)
    by (intros v [= <-]; unfold Qle; simpl; lia).
  assert (Htot : (0 <= 50)%Q) by (unfold Qle; simpl; lia).
  destruct (resample_first_sample 25 [ {| ele := 7 |}; {| ele := 9 |} ] [0; 50]%Q 50 6
              {| ele := 7 |} [ {| ele := 9 |} ] 0 _
              eq_refl eq_refl (Qeq_refl 0) Hd1 Htot Hrun) as (s & more & H).
  exists s, more. split; [exact Hrun | exact H].
Defined.


(** ** More on the smoother *)











(** ** More on the gain/loss accumulator *)


















(** ** More on the pipeline *)

Lemma iterations_negative (SAMPLE totalDist : Q) :
  (0 < SAMPLE)%Q -> (totalDist < 0)%Q -> iterations SAMPLE totalDist = 0.
Proof.
  intros HS Ht. unfold iterations.
  destruct (floor_bounds SAMPLE totalDist HS) as [Hlo _].
  assert (Hneg : (inject_Z (Qfloor (totalDist / SAMPLE)) < 0)%Q).
  { destruct (Qlt_le_dec (inject_Z (Qfloor (totalDist / SAMPLE))) 0) as [Hlt|Hge];
      [exact Hlt|].
    assert (0 <= inject_Z (Qfloor (totalDist / SAMPLE)) * SAMPLE)%Q
      by (apply Qmult_le_0_compat; lra).
    lra. }
  change 0%Q with (inject_Z 0) in Hneg. rewrite <- Zlt_Qlt in Hneg. lia.
Qed.

Lemma processGPX_negative_total atan simplify fuel t rest :
  points t <> [] -> (total (distance t) < 0)%Q ->
  length (points t) <= fuel ->
  processGPX atan simplify fuel {| tracks := Some (t :: rest) |} = Err TypeError.
Proof.
  intros Hne Htot Hfuel.
  assert (HS : (0 < SAMPLE_DISTANCE)%Q) by reflexivity.
  destruct (resample_Ok SAMPLE_DISTANCE (points t) (cumul (distance t))
              (total (distance t)) fuel HS Hne) as (samples & Hres & Hlen & _).
  { rewrite (iterations_negative _ _ HS Htot). exact Hfuel. }
  rewrite (iterations_negative _ _ HS Htot) in Hlen.
  destruct samples; [|discriminate].
  unfold processGPX, smoothed_of. cbn [tracks]. rewrite Hres. reflexivity.
Qed.

(** X8: the outcome of [processGPX], given enough fuel for the first
    track.  A missing or empty track list gives the error of the guard; a
    first track without points or with a negative total distance ends in a
    [TypeError]; every other input returns. *)
Theorem processGPX_outcome atan simplify fuel gpx :
  (forall t rest, tracks gpx = Some (t :: rest) ->
     iterations SAMPLE_DISTANCE (total (distance t)) + length (points t) + 1 <= fuel) ->
  (tracks gpx = None \/ tracks gpx = Some [] ->
   processGPX atan simplify fuel gpx = Err NoTracksFound) /\
  (forall t rest, tracks gpx = Some (t :: rest) ->
     points t = [] \/ (total (distance t) < 0)%Q ->
     processGPX atan simplify fuel gpx = Err TypeError) /\
  (forall t rest, tracks gpx = Some (t :: rest) ->
     points t <> [] -> (0 <= total (distance t))%Q ->
     exists out, processGPX atan simplify fuel gpx = Ok out).
Proof.
  destruct gpx as [trs]. cbn [tracks]. intros Hfuel.
  split; [intros [->| ->]; reflexivity|]. split.
  - intros t rest -> Hbad. specialize (Hfuel t rest eq_refl).
    destruct (points t) as [|p ps] eqn:Ep.
    + destruct fuel as [|fuel]; [lia|].
      destruct t as [pts [cum tot]]. cbn [points] in Ep. subst pts.
      apply processGPX_no_points.
    + destruct Hbad as [Hbad|Hneg]; [discriminate|].
      apply processGPX_negative_total;
        [rewrite Ep; discriminate | exact Hneg | rewrite Ep; lia].
  - intros t rest -> Hne Htot. specialize (Hfuel t rest eq_refl).
    apply processGPX_returns; [exact Hne | exact Htot | lia].
Qed.

Lemma processGPX_outcome_witness :
  exists out,
    processGPX atan_series simplify_hq 9
      (one_track [100; 110; 100]%Q [0; 50; 100]%Q 100) = Ok out.
Proof.
  destruct (processGPX_outcome atan_series simplify_hq 9
              (one_track [100; 110; 100]%Q [0; 50; 100]%Q 100)) as (_ & _ & H).
  - intros t rest [= <- <-]. vm_compute. lia.
  - apply (H _ _ eq_refl).
    + discriminate.
    + unfold Qle. simpl. lia.
Defined.


Lemma advance_error pts cumDist fuel :
  forall idx d e, advance pts cumDist fuel idx d = Err e -> e = OutOfFuel.
Proof.
  induction fuel as [|fuel IH]; intros idx d e H; [injection H as <-; reflexivity|].
  simpl in H.
  destruct ((idx <? length pts - 1) && undef_lt (cumDist !! (idx + 1)) d);
    [eauto | discriminate].
Qed.

Lemma sample_at_error pts cumDist idx d e :
  sample_at pts cumDist idx d = Err e -> e = TypeError.
Proof.
  unfold sample_at.
  destruct (length pts - 1 <=? idx).
  - destruct (pts !! (length pts - 1)); cbn [prop_of bind]; congruence.
  - destruct (pts !! idx); cbn [prop_of bind]; [|congruence].
    destruct (pts !! (idx + 1)); cbn [prop_of bind]; [|congruence].
    destruct (fraction_Ok cumDist idx d) as [t ->]. cbn [bind]. discriminate.
Qed.

Lemma resample_loop_error (SAMPLE : Q) pts cumDist (totalDist : Q) fuel :
  forall d idx acc e,
    resample_loop SAMPLE pts cumDist totalDist fuel d idx acc = Err e ->
    e = TypeError \/ e = OutOfFuel.
Proof.
  induction fuel as [|fuel IH]; intros d idx acc e H;
    [injection H as <-; right; reflexivity|].
  cbn [resample_loop] in H.
  destruct (Qle_bool d totalDist); [|discriminate].
  destruct (advance pts cumDist (S fuel) idx d) as [idx'|e'] eqn:Ea.
  - cbn [bind] in H.
    destruct (sample_at pts cumDist idx' d) as [s|e'] eqn:Es.
    + cbn [bind] in H. eauto.
    + cbn [bind] in H. injection H as <-. left. eapply sample_at_error, Es.
  - cbn [bind] in H. injection H as <-. right. eapply advance_error, Ea.
Qed.

(** X9: [processGPX] never divides by zero.  On every input, also with
    unsorted or missing cumulative distances, the call returns or ends in
    the error of the guard or in a [TypeError] (or the model runs out of
    fuel). *)
Theorem processGPX_errors atan simplify fuel gpx :
  (exists out, processGPX atan simplify fuel gpx = Ok out) \/
  processGPX atan simplify fuel gpx = Err NoTracksFound \/
  processGPX atan simplify fuel gpx = Err TypeError \/
  processGPX atan simplify fuel gpx = Err OutOfFuel.
Proof.
  unfold processGPX.
  destruct (tracks gpx) as [[|t rest]|]; [auto | | auto].
  unfold smoothed_of.
  destruct (resample SAMPLE_DISTANCE (points t) (cumul (distance t))
              (total (distance t)) fuel) as [samples|e] eqn:Er.
  - cbn [bind]. rewrite half_window_default. cbn [bind].
    destruct (smooth_spec 2 samples) as (smoothed & -> & _); [lia|].
    cbn [bind].
    destruct smoothed as [|s0 more]; [auto|].
    rewrite accumulate_run. cbn [bind].
    destruct (annotate_spec atan
                (map to_chart (simplify (map to_xy (s0 :: more)) simplifyTolerance true)))
      as (chart & -> & _).
    cbn [bind]. eauto.
  - cbn [bind]. apply resample_loop_error in Er as [->| ->]; auto.
Qed.




Lemma annotate_coordinates atan (cd cd' : list chart_point) :
  annotate atan cd = Ok cd' -> map chart_xy cd' = map chart_xy cd.
Proof.
  intros Hann.
  destruct (annotate_spec atan cd) as (cd2 & Hcd2 & Hlen & Hall).
  rewrite Hann in Hcd2. injection Hcd2 as <-.
  apply list_eq. intros i.
  change (map chart_xy cd') with (chart_xy <$> cd').
  change (map chart_xy cd) with (chart_xy <$> cd).
  rewrite !list_lookup_fmap.
  destruct (cd !! i) as [p|] eqn:E.
  - rewrite (Hall i p E). cbn [fmap option_fmap option_map]. f_equal.
    unfold annotated.
    destruct (cd !! (i + 1)) as [q|]; [|reflexivity].
    destruct (Qltb 0 (x q - x p)); reflexivity.
  - apply lookup_ge_None in E.
    rewrite (proj2 (lookup_ge_None cd' i)) by (rewrite Hlen; exact E). reflexivity.
Qed.

(** X11: the slope loop changes no coordinate: the [x] and [y] of the
    chart data that [processGPX] returns are exactly the points that the
    simplifier returned for the smoothed samples, in the same order. *)
Theorem chart_points_simplified atan simplify fuel gpx out :
  processGPX atan simplify fuel gpx = Ok out ->
  exists t rest smoothed,
    tracks gpx = Some (t :: rest) /\
    smoothed_of fuel t = Ok smoothed /\
    map chart_xy (chartData out) = simplify (map to_xy smoothed) simplifyTolerance true.
Proof.
  intros Hrun.
  destruct (processGPX_inv _ _ _ _ _ Hrun)
    as (t & rest & smoothed & st & Htr & Hsm & _ & Hann & _).
  exists t, rest, smoothed. split; [exact Htr|]. split; [exact Hsm|].
  rewrite (annotate_coordinates _ _ _ Hann).
  rewrite map_map. unfold chart_xy, to_chart. cbn [x y].
  rewrite <- (map_id (simplify _ _ _)) at 2.
  apply map_ext. intros [a b]. reflexivity.
Qed.

Lemma chart_points_simplified_witness :
  exists out t rest smoothed,
    processGPX atan_series simplify_hq 8
      (one_track [100; 110; 100]%Q [0; 50; 100]%Q 100) = Ok out /\
    tracks (one_track [100; 110; 100]%Q [0; 50; 100]%Q 100) = Some (t :: rest) /\
    smoothed_of 8 t = Ok smoothed /\
    map chart_xy (chartData out) = simplify_hq (map to_xy smoothed) simplifyTolerance true.
Proof.
  eexists.
  assert (Hrun : processGPX atan_series simplify_hq 8
                   (one_track [100; 110; 100]%Q [0; 50; 100]%Q 100) = Ok _)
    by (vm_compute; reflexivity).
  destruct (chart_points_simplified atan_series simplify_hq 8 _ _ Hrun)
    as (t & rest & smoothed & H).
  exists t, rest, smoothed. split; [exact Hrun | exact H].
Defined.


(** ** The parameter sweep *)

Lemma value_at_sample_at pts cumDist idx d :
  value_at pts cumDist idx d = res_map s_ele (sample_at pts cumDist idx d).
Proof.
  unfold value_at, sample_at.
  destruct (length pts - 1 <=? idx).
  - destruct (pts !! (length pts - 1)); reflexivity.
  - destruct (pts !! idx); [|reflexivity].
    destruct (pts !! (idx + 1)); [|reflexivity].
    cbn [prop_of bind].
    destruct (fraction cumDist idx d); reflexivity.
Qed.

Lemma calc_resample_loop_map (SAMPLE : Q) pts cumDist (totalDist : Q) fuel :
  forall d idx acc,
    calc_resample_loop SAMPLE pts cumDist totalDist fuel d idx (map s_ele acc)
    = res_map (map s_ele) (resample_loop SAMPLE pts cumDist totalDist fuel d idx acc).
Proof.
  induction fuel as [|fuel IH]; intros d idx acc; [reflexivity|].
  cbn [calc_resample_loop resample_loop].
  destruct (Qle_bool d totalDist); [|reflexivity].
  destruct (advance pts cumDist (S fuel) idx d) as [idx'|e]; [|reflexivity].
  cbn [bind]. rewrite value_at_sample_at.
  destruct (sample_at pts cumDist idx' d) as [s|e]; [|reflexivity].
  cbn [res_map bind]. rewrite <- IH, map_app. reflexivity.
Qed.

Lemma window_step_error (samples : list sample) (js : list Z) e :
  fold_left (window_step samples) js (Err e) = Err e.
Proof. induction js as [|j js IH]; [reflexivity | exact IH]. Qed.

Lemma calc_window_fold (samples : list sample) (js : list Z) :
  forall acc r,
    fold_left (window_step samples) js acc = Ok r ->
    fold_left (calc_window_step (map s_ele samples)) js acc = Ok r.
Proof.
  induction js as [|j js IH]; intros acc r H; [exact H|].
  cbn [fold_left] in *.
  destruct acc as [sc|e]; [|cbn [window_step bind] in H;
                            rewrite window_step_error in H; discriminate].
  unfold window_step at 2 in H. unfold calc_window_step at 2.
  cbn [bind] in *.
  change (map s_ele samples) with (s_ele <$> samples).
  rewrite list_lookup_fmap.
  destruct (samples !! Z.to_nat j) as [s|].
  - cbn [prop_of to_number bind fmap option_fmap option_map] in *.
    apply IH. exact H.
  - cbn [prop_of bind] in H. rewrite window_step_error in H. discriminate.
Qed.

Lemma calc_smooth_at_map (half : Z) (samples : list sample) s i s' :
  smooth_at half samples s i = Ok s' ->
  calc_smooth_at half (map s_ele samples) (s_ele s) i = Ok (s_ele s').
Proof.
  unfold smooth_at, calc_smooth_at, window_sum. intros H.
  apply bind_Ok in H as (sc & Hsc & H).
  apply bind_Ok in H as (m & Hm & [= <-]).
  replace (calc_window half (map s_ele samples) i) with (window half samples i)
    by (unfold window, calc_window; rewrite length_map; reflexivity).
  rewrite (calc_window_fold _ _ _ _ Hsc). cbn [bind s_ele]. exact Hm.
Qed.

Lemma map_index_map {A B A' B' : Type} (f : A -> A') (f' : B -> B')
      (g : A' -> nat -> res B') (h : A -> nat -> res B) :
  (forall a i b, h a i = Ok b -> g (f a) i = Ok (f' b)) ->
  forall l off bs,
    map_index h off l = Ok bs -> map_index g off (map f l) = Ok (map f' bs).
Proof.
  intros Hgh. induction l as [|a l IH]; intros off bs H.
  - injection H as <-. reflexivity.
  - cbn [map_index map] in *.
    apply bind_Ok in H as (b & Hb & H).
    apply bind_Ok in H as (bs' & Hbs' & [= <-]).
    rewrite (Hgh _ _ _ Hb). cbn [bind]. rewrite (IH _ _ Hbs'). reflexivity.
Qed.

Lemma calc_smooth_map (half : Z) (samples smoothed : list sample) :
  smooth half samples = Ok smoothed ->
  calc_smooth half (map s_ele samples) = Ok (map s_ele smoothed).
Proof.
  unfold smooth, calc_smooth.
  apply map_index_map. intros s i s'. apply calc_smooth_at_map.
Qed.

Lemma calc_step_acc_step (T : Q) (st : acc_state) (e : Q) :
  calc_step T (elevationGain st, anchor st) e
  = (elevationGain (acc_step T st e), anchor (acc_step T st e)).
Proof.
  unfold calc_step, acc_step. cbn [fst snd].
  destruct (Qle_bool T (e - anchor st)); [reflexivity|].
  destruct (Qle_bool (e - anchor st) (- T)); reflexivity.
Qed.

Lemma calc_fold_acc (T : Q) (es : list Q) :
  forall st,
    fold_left (calc_step T) es (elevationGain st, anchor st)
    = (elevationGain (fold_left (acc_step T) es st),
       anchor (fold_left (acc_step T) es st)).
Proof.
  induction es as [|e es IH]; intros st; [reflexivity|].
  cbn [fold_left]. rewrite calc_step_acc_step. apply IH.
Qed.

Lemma calc_gain_accumulate (T : Q) (smoothed : list sample) st :
  accumulate T smoothed = Ok st ->
  calc_gain T (map s_ele smoothed) = elevationGain st.
Proof.
  destruct smoothed as [|s0 rest]; [discriminate|].
  rewrite accumulate_run. intros [= <-].
  cbn [map calc_gain].
  change (0%Q, s_ele s0)
    with (elevationGain (acc_init (s_ele s0)), anchor (acc_init (s_ele s0))).
  rewrite (calc_fold_acc T (map s_ele rest) (acc_init (s_ele s0))). reflexivity.
Qed.

(** X12: the sweep and the application agree.  Whenever [processGPX]
    returns, [calcGain] with the parameters 25, 100 and 4 returns on the
    same parsed file, and its result, written as text, is the
    [elevationGain] of the stats. *)
Theorem calcGain_agrees atan simplify fuel gpx out :
  processGPX atan simplify fuel gpx = Ok out ->
  exists n,
    calcGain SAMPLE_DISTANCE SMOOTH_DISTANCE THRESHOLD fuel gpx = Ok n /\
    s_elevationGain (stats out) = toString n.
Proof.
  intros Hrun.
  destruct (processGPX_inv _ _ _ _ _ Hrun)
    as (t & rest & smoothed & st & Htr & Hsm & Hst & _ & Hstats).
  unfold smoothed_of in Hsm.
  apply bind_Ok in Hsm as (samples & Hres & Hsm).
  apply bind_Ok in Hsm as (half & Hhalf & Hsm).
  exists (Math_round (elevationGain st)).
  split; [|rewrite Hstats; reflexivity].
  unfold calcGain. rewrite Htr. cbn [prop_of bind lookup list_lookup].
  pose proof (calc_resample_loop_map SAMPLE_DISTANCE (points t) (cumul (distance t))
                (total (distance t)) fuel 0%Q 0 []) as Hmap.
  unfold resample in Hres. rewrite Hres in Hmap. cbn [map res_map] in Hmap.
  rewrite Hmap. cbn [bind]. rewrite Hhalf. cbn [bind].
  rewrite (calc_smooth_map _ _ _ Hsm). cbn [bind].
  rewrite (calc_gain_accumulate _ _ _ Hst). reflexivity.
Qed.

Lemma calcGain_agrees_witness :
  exists out n,
    processGPX atan_series simplify_hq 25 (one_track [0; 50]%Q [0; 495]%Q 495) = Ok out /\
    calcGain SAMPLE_DISTANCE SMOOTH_DISTANCE THRESHOLD 25
      (one_track [0; 50]%Q [0; 495]%Q 495) = Ok n /\
    s_elevationGain (stats out) = toString n.
Proof.
  eexists.
  assert (Hrun : processGPX atan_series simplify_hq 25
                   (one_track [0; 50]%Q [0; 495]%Q 495) = Ok _)
    by (vm_compute; reflexivity).
  destruct (calcGain_agrees atan_series simplify_hq 25 _ _ Hrun) as (n & H).
  exists n. split; [exact Hrun | exact H].
Defined.


Lemma calc_fold_nonneg (T : Q) (es : list Q) :
  (0 <= T)%Q ->
  forall st, (0 <= fst st)%Q -> (0 <= fst (fold_left (calc_step T) es st))%Q.
Proof.
  intros HT. induction es as [|e es IH]; intros st Hst; [exact Hst|].
  cbn [fold_left]. apply IH. unfold calc_step.
  destruct (Qle_bool T (e - snd st)) eqn:E1.
  - apply Qle_bool_iff in E1. cbn [fst]. lra.
  - destruct (Qle_bool (e - snd st) (- T)); exact Hst.
Qed.

(** X13: for a threshold [THRESH >= 0] the result of [calcGain] is never
    negative, whatever the step and the window are. *)
Theorem calcGain_nonneg (SAMPLE SMOOTH THRESH : Q) fuel gpx n :
  (0 <= THRESH)%Q ->
  calcGain SAMPLE SMOOTH THRESH fuel gpx = Ok n ->
  (0 <= n)%Z.
Proof.
  intros HT H. unfold calcGain in H.
  apply bind_Ok in H as (ts & _ & H).
  apply bind_Ok in H as (t & _ & H).
  apply bind_Ok in H as (samples & _ & H).
  apply bind_Ok in H as (half & _ & H).
  apply bind_Ok in H as (smoothed & _ & [= <-]).
  assert (Hg : (0 <= calc_gain THRESH smoothed)%Q).
  { destruct smoothed as [|a rest]; [apply Qle_refl|].
    cbn [calc_gain]. apply calc_fold_nonneg; [exact HT | apply Qle_refl]. }
  unfold Math_round. change 0%Z with (Qfloor 0).
  apply Qfloor_resp_le. lra.
Qed.

Lemma calcGain_nonneg_witness : (0 <= 40)%Z.
Proof.
  apply (calcGain_nonneg 25 100 4 25 (one_track [0; 50]%Q [0; 495]%Q 495) 40).
  - unfold Qle. simpl. lia.
  - vm_compute. reflexivity.
Defined.


(** X14: [calcGain] has no guard.  A missing or empty track list and a
    first track without points (total distance at least 0) end in a
    [TypeError]; a negative total distance leaves [smoothed] empty and,
    where [processGPX] throws, gives the result 0. *)
Theorem calcGain_edges (SAMPLE SMOOTH THRESH : Q) fuel :
  calcGain SAMPLE SMOOTH THRESH fuel {| tracks := None |} = Err TypeError /\
  calcGain SAMPLE SMOOTH THRESH fuel {| tracks := Some [] |} = Err TypeError /\
  (forall cumDist totalDist rest,
      (0 <= totalDist)%Q ->
      calcGain SAMPLE SMOOTH THRESH (S fuel)
        {| tracks := Some ({| points := [];
                              distance := {| cumul := cumDist; total := totalDist |} |}
                           :: rest) |}
      = Err TypeError) /\
  (forall t rest,
      ~ (SAMPLE == 0)%Q -> (total (distance t) < 0)%Q ->
      calcGain SAMPLE SMOOTH THRESH (S fuel) {| tracks := Some (t :: rest) |} = Ok 0%Z).
Proof.
  split; [reflexivity|]. split; [reflexivity|]. split.
  - intros cumDist totalDist rest Htot.
    unfold calcGain. cbn [tracks prop_of bind lookup list_lookup points distance cumul total].
    cbn [calc_resample_loop]. apply Qle_bool_iff in Htot. rewrite Htot. reflexivity.
  - intros t rest HS Htot.
    unfold calcGain. cbn [tracks prop_of bind lookup list_lookup].
    cbn [calc_resample_loop].
    assert (E : Qle_bool 0 (total (distance t)) = false).
    { destruct (Qle_bool 0 (total (distance t))) eqn:E; [|reflexivity].
      apply Qle_bool_iff in E. lra. }
    rewrite E. cbn [bind]. unfold half_window. rewrite (div_Ok _ _ HS).
    reflexivity.
Qed.

(** ** Texts of numbers and the name of the exported image *)


Lemma append_assoc_s (a b c : string) : ((a ++ b) ++ c = a ++ (b ++ c))%string.
Proof. induction a as [|x a IH]; [reflexivity | simpl; rewrite IH; reflexivity]. Qed.



























(** The two roundings add up: a track of 495 m is shown as 0.50 km and
    exported as 1 km, while 0.495 km rounds to 0 km. *)
Example download_name_rounds_twice :
  exists out,
    processGPX atan_series simplify_hq 25 (one_track [0; 50]%Q [0; 495]%Q 495) = Ok out /\
    s_distance (stats out) = "0.50"%string /\
    download_name (stats out) = "1km_40m_ride.png"%string /\
    Math_round (495 / 1000) = 0%Z.
Proof.
  eexists. split; [vm_compute; reflexivity|]. repeat split.
Qed.
